(** * AJE database setup: extract, load and validate

    A shallow embedding of [database_setup.py].  The script reads one wide
    spreadsheet into a pandas DataFrame, derives one DataFrame per target
    table ([extract_table_data]), appends them to the SQL store in a fixed
    order ([load_data_to_database]) and counts the rows of the main tables
    ([validate_data_integrity]).

    DataFrames are Python objects: [df[[...]]], [dropna], [drop_duplicates]
    and [rename] each build a new object, while [frame[col] = value] updates
    the object it is applied to.  Objects therefore live in a heap and the
    extraction runs in a state-and-exception monad over that heap. *)

From stdpp Require Import gmap strings list fin_maps pretty.
From Stdlib Require Import ZArith.

Open Scope string_scope.
Open Scope list_scope.
#[local] Set Warnings "-clear-no-such-hyp".

(** ** Cells, rows and frames *)

(** A spreadsheet cell.  [NaN] is the missing value ([NaN], [None], [NaT]);
    numbers, amounts and timestamps are integers here, since the pipeline
    only asks whether a cell is missing and whether two cells are equal. *)
Inductive cell :=
  | NaN
  | Int (z : Z)
  | Str (s : string).

Global Instance cell_eq_dec : EqDecision cell.
Proof. solve_decision. Defined.

(** Row labels of the index; [read_excel] numbers the rows 0, 1, 2, ... *)
Abbreviation label := nat (only parsing).

(** A frame: its column labels ([df.columns]) and its rows, each carrying its
    index label ([df.index]) and its values ([df.values]). *)
Record DataFrame := mkFrame {
  columns : list string;
  rows : list (label * list cell)
}.

Global Instance DataFrame_eq_dec : EqDecision DataFrame.
Proof. solve_decision. Defined.

(** A Series: labelled values of one column. *)
Abbreviation Series := (list (label * cell)) (only parsing).

Definition index (d : DataFrame) : list label := (rows d).*1.
Definition values (d : DataFrame) : list (list cell) := (rows d).*2.

(** Frames as the spreadsheet reader builds them: distinct column labels
    (duplicated headers are renamed [nombre], [nombre.1], ...), distinct row
    labels, and one cell per column in every row. *)
Definition well_formed (d : DataFrame) : Prop :=
  NoDup (columns d) ∧ NoDup (index d) ∧
  Forall (λ r, length r = length (columns d)) (values d).

Global Instance well_formed_dec d : Decision (well_formed d).
Proof. unfold well_formed. apply _. Defined.

(** [Index.get_loc]: position of a column label. *)
Fixpoint get_loc (cols : list string) (c : string) : option nat :=
  match cols with
  | [] => None
  | x :: xs => if decide (x = c) then Some 0 else S <$> get_loc xs c
  end.

(** The cell of row [r] under column [c]. *)
Definition cell_at (cols : list string) (r : list cell) (c : string) : cell :=
  default NaN (get_loc cols c ≫= (r !!.)).

(** Exceptions raised by the frame operations. *)
Inductive exn :=
  | KeyError (missing : list string)
  | ValueError (msg : string)
  | Unbound (l : nat).  (* a name bound to no object; Python never gets here *)

Global Instance exn_eq_dec : EqDecision exn.
Proof. solve_decision. Defined.

Inductive result (A : Type) :=
  | Ok (a : A)
  | Raise (e : exn).
Arguments Ok {A} a.
Arguments Raise {A} e.

(** ** Frame operations on values *)

(** [d[[c1, ..., ck]]]: the listed columns, in the listed order.  Column
    labels are distinct in every frame the spreadsheet reader builds, so a
    label names one column. *)
Definition select (d : DataFrame) (cs : list string) : DataFrame :=
  {| columns := cs;
     rows := (λ lr, (lr.1, cell_at (columns d) lr.2 <$> cs)) <$> rows d |}.

Definition frame_getitem (d : DataFrame) (cs : list string) : result DataFrame :=
  if decide (cs ⊆ columns d) then Ok (select d cs)
  else Raise (KeyError (filter (λ c, c ∉ columns d) cs)).

(** [d.dropna(subset=[...])]: rows with a missing cell under one of the
    subset columns are removed. *)
Definition drop_na (d : DataFrame) (subset : list string) : DataFrame :=
  {| columns := columns d;
     rows := filter (λ lr, Forall (λ c, cell_at (columns d) lr.2 c ≠ NaN) subset)
                    (rows d) |}.

Definition frame_dropna (d : DataFrame) (subset : list string) : result DataFrame :=
  if decide (subset ⊆ columns d) then Ok (drop_na d subset)
  else Raise (KeyError (filter (λ c, c ∉ columns d) subset)).

(** [d.duplicated()] with [keep='first']: a row is flagged when an earlier row
    has the same values (two missing cells count as equal). *)
Fixpoint duplicated (seen : list (list cell)) (vals : list (list cell)) : list bool :=
  match vals with
  | [] => []
  | r :: vs => bool_decide (r ∈ seen) :: duplicated (r :: seen) vs
  end.

(** [d.drop_duplicates()]: the rows that are not flagged. *)
Definition drop_dups (d : DataFrame) : DataFrame :=
  {| columns := columns d;
     rows := (filter (λ p, p.2 = false)
                (zip (rows d) (duplicated [] (values d)))).*1 |}.

(** Lookup in a dict literal. *)
Fixpoint assoc {A} (m : list (string * A)) (k : string) : option A :=
  match m with
  | [] => None
  | (k', v) :: m' => if decide (k' = k) then Some v else assoc m' k
  end.

(** [d.rename(columns={...})]: labels absent from the mapper are kept. *)
Definition rename_columns (d : DataFrame) (mapper : list (string * string)) : DataFrame :=
  {| columns := (λ c, default c (assoc mapper c)) <$> columns d;
     rows := rows d |}.

(** [d[c]]: one column as a Series. *)
Definition column (d : DataFrame) (c : string) : Series :=
  (λ lr, (lr.1, cell_at (columns d) lr.2 c)) <$> rows d.

Definition frame_column (d : DataFrame) (c : string) : result Series :=
  if decide (c ∈ columns d) then Ok (column d c) else Raise (KeyError [c]).

(** Storing [vals] (one per row) under label [c]: an existing column is
    overwritten, a new one is appended on the right. *)
Definition set_column (d : DataFrame) (c : string) (vals : list cell) : DataFrame :=
  match get_loc (columns d) c with
  | Some p =>
      {| columns := columns d;
         rows := zip_with (λ lr v, (lr.1, <[p:=v]> lr.2)) (rows d) vals |}
  | None =>
      {| columns := columns d ++ [c];
         rows := zip_with (λ lr v, (lr.1, lr.2 ++ [v])) (rows d) vals |}
  end.

(** [d[c] = scalar]: the scalar is broadcast to every row. *)
Definition frame_setitem_scalar (d : DataFrame) (c : string) (v : cell) : DataFrame :=
  set_column d c (replicate (length (rows d)) v).

(** [DataFrame._ensure_valid_index]: a frame that has no rows takes the index
    of a non-empty Series assigned to it, its own columns being filled with
    missing values. *)
Definition ensure_valid_index (d : DataFrame) (s : Series) : DataFrame :=
  match rows d, s with
  | [], _ :: _ =>
      {| columns := columns d;
         rows := (λ lv, (lv.1, replicate (length (columns d)) NaN)) <$> s |}
  | _, _ => d
  end.

(** The value a Series holds under a label, missing when it has none. *)
Fixpoint series_at (s : Series) (l : label) : cell :=
  match s with
  | [] => NaN
  | (l', v) :: s' => if decide (l' = l) then v else series_at s' l
  end.

(** [_reindex_for_setitem]: the values of the Series aligned on the index of
    the frame.  Equal indexes need no alignment; otherwise rows are matched by
    label, labels unknown to the Series give missing values, and a Series
    whose labels repeat cannot be aligned. *)
Definition reindex_for_setitem (s : Series) (d : DataFrame) : result (list cell) :=
  if decide (s.*1 = index d ∨ rows d = []) then Ok s.*2
  else if decide (NoDup s.*1) then Ok (series_at s <$> index d)
  else Raise (ValueError "cannot reindex on an axis with duplicate labels").

(** [d[c] = series]. *)
Definition frame_setitem_series (d : DataFrame) (c : string) (s : Series)
    : result DataFrame :=
  let d' := ensure_valid_index d s in
  match reindex_for_setitem s d' with
  | Ok vals => Ok (set_column d' c vals)
  | Raise e => Raise e
  end.

(** [d.drop(columns=[c])]: every column labelled [c] goes, with its cells. *)
Definition drop_column (d : DataFrame) (c : string) : DataFrame :=
  {| columns := filter (λ x, x ≠ c) (columns d);
     rows := (λ lr, (lr.1, (filter (λ xv, xv.1 ≠ c) (zip (columns d) lr.2)).*2))
               <$> rows d |}.

(** ** The object heap and its monad *)

Abbreviation loc := nat (only parsing).
Abbreviation heap := (list DataFrame) (only parsing).

Definition M (A : Type) : Type := heap → result A * heap.

Global Instance M_ret : MRet M := λ A a h, (Ok a, h).
Global Instance M_bind : MBind M := λ A B k m h,
  match m h with
  | (Ok a, h') => k a h'
  | (Raise e, h') => (Raise e, h')
  end.

(** Method chaining, [obj.f(...).g(...)]. *)
Notation "m ▷ f" := (mbind (M:=M) f m) (at level 50, left associativity).

Definition lift {A} (r : result A) : M A := λ h, (r, h).
Definition alloc (d : DataFrame) : M loc := λ h, (Ok (length h), h ++ [d]).
Definition read (l : loc) : M DataFrame := λ h,
  match h !! l with
  | Some d => (Ok d, h)
  | None => (Raise (Unbound l), h)
  end.
Definition write (l : loc) (d : DataFrame) : M unit := λ h, (Ok (), <[l:=d]> h).

(** The pandas methods used by the script. *)
Definition getitem_cols (cs : list string) (df : loc) : M loc :=
  d ← read df; d' ← lift (frame_getitem d cs); alloc d'.

Definition dropna (subset : list string) (df : loc) : M loc :=
  d ← read df; d' ← lift (frame_dropna d subset); alloc d'.

Definition drop_duplicates (df : loc) : M loc :=
  d ← read df; alloc (drop_dups d).

Definition rename (mapper : list (string * string)) (df : loc) : M loc :=
  d ← read df; alloc (rename_columns d mapper).

Definition getitem_col (df : loc) (c : string) : M Series :=
  d ← read df; lift (frame_column d c).

Definition has_column (c : string) (df : loc) : M bool :=
  d ← read df; mret (bool_decide (c ∈ columns d)).

Definition setitem_series (df : loc) (c : string) (s : Series) : M unit :=
  d ← read df; d' ← lift (frame_setitem_series d c s); write df d'.

Definition setitem_scalar (df : loc) (c : string) (v : cell) : M unit :=
  d ← read df; write df (frame_setitem_scalar d c v).

(** [tables[k]] on the result dict. *)
Definition dict_getitem (tables : gmap string loc) (k : string) : M loc :=
  match tables !! k with
  | Some l => mret l
  | None => lift (Raise (KeyError [k]))
  end.

(** ** extract_table_data *)

Definition extract_table_data (df : loc) : M (gmap string loc) :=
  let tables : gmap string loc := ∅ in
  (* 1. tipo_documento *)
  t ← getitem_cols ["id_tipo_documento"; "nombre"; "descripcion"] df
        ▷ dropna ["id_tipo_documento"]
        ▷ drop_duplicates
        ▷ rename [("nombre", "nombre"); ("descripcion", "descripcion")];
  let tables := <["tipo_documento" := t]> tables in
  (* 2. canal_cliente *)
  t ← getitem_cols ["id_canal_cliente"; "nombre.1"; "descripcion.1"] df
        ▷ dropna ["id_canal_cliente"]
        ▷ drop_duplicates
        ▷ rename [("nombre.1", "nombre"); ("descripcion.1", "descripcion")];
  let tables := <["canal_cliente" := t]> tables in
  (* 3. tipo_pago *)
  t ← getitem_cols ["id_tipo_pago"; "nombre_tipo_pago"; "descripcion.2"] df
        ▷ dropna ["id_tipo_pago"]
        ▷ drop_duplicates
        ▷ rename [("descripcion.2", "descripcion")];
  let tables := <["tipo_pago" := t]> tables in
  (* 4. cargo_trabajador *)
  t ← getitem_cols ["id_cargo_trabajador"; "nombre.2"; "descripcion.4"] df
        ▷ dropna ["id_cargo_trabajador"]
        ▷ drop_duplicates
        ▷ rename [("nombre.2", "nombre_cargo"); ("descripcion.4", "descripcion")];
  let tables := <["cargo_trabajador" := t]> tables in
  (* 5. marca_producto *)
  t ← getitem_cols ["id_marca_producto"; "nombre_marca"] df
        ▷ dropna ["id_marca_producto"]
        ▷ drop_duplicates;
  let tables := <["marca_producto" := t]> tables in
  t ← dict_getitem tables "marca_producto";
  s ← getitem_col t "nombre_marca";
  t ← dict_getitem tables "marca_producto";
  _ ← setitem_series t "descripcion" s;
  (* 6. categoria_producto *)
  t ← getitem_cols ["id_categoria_producto"; "nombre_categoria"; "descripcion.5"] df
        ▷ dropna ["id_categoria_producto"]
        ▷ drop_duplicates
        ▷ rename [("descripcion.5", "descripcion")];
  let tables := <["categoria_producto" := t]> tables in
  (* 7. trabajador *)
  t ← getitem_cols ["id_trabajador"; "nombre trabajador"; "correo"; "telefono.1";
                    "id_cargo_trabajador"] df
        ▷ dropna ["id_trabajador"]
        ▷ drop_duplicates
        ▷ rename [("nombre trabajador", "nombres"); ("correo", "email");
                  ("telefono.1", "telefono")];
  let tables := <["trabajador" := t]> tables in
  t ← dict_getitem tables "trabajador";
  _ ← setitem_scalar t "apellidos" (Str "");
  (* 8. cliente *)
  t ← getitem_cols ["id_cliente"; "nombre_cliente"; "numero_documento"; "correo.1";
                    "telefono.2"; "direccion"; "id_tipo_documento";
                    "id_canal_cliente"] df
        ▷ dropna ["id_cliente"]
        ▷ drop_duplicates
        ▷ rename [("correo.1", "email"); ("telefono.2", "telefono")];
  let tables := <["cliente" := t]> tables in
  (* 9. producto *)
  t ← getitem_cols ["id_producto"; "descripcion.6"; "precio"; "id_marca_producto";
                    "id_categoria_producto"] df
        ▷ dropna ["id_producto"]
        ▷ drop_duplicates
        ▷ rename [("descripcion.6", "descripcion")];
  let tables := <["producto" := t]> tables in
  b ← has_column "codigo_formato_producto" df;
  _ ← (if b : bool then
         s ← getitem_col df "codigo_formato_producto";
         t ← dict_getitem tables "producto";
         setitem_series t "id_formato_producto" s
       else mret ());
  (* 10. pedido *)
  t ← getitem_cols ["id_pedido"; "id_trabajador"; "id_cliente"; "id_tipo_pago";
                    "fecha"; "monto_total"] df
        ▷ dropna ["id_pedido"]
        ▷ drop_duplicates;
  let tables := <["pedido" := t]> tables in
  (* 11. detalle_pedido *)
  t ← getitem_cols ["id_detalle_pedido"; "id_pedido"; "id_producto"; "cantidad";
                    "precio_unitario"] df
        ▷ dropna ["id_detalle_pedido"]
        ▷ drop_duplicates;
  let tables := <["detalle_pedido" := t]> tables in
  b ← has_column "id_promocion" df;
  _ ← (if b : bool then
         s ← getitem_col df "id_promocion";
         t ← dict_getitem tables "detalle_pedido";
         setitem_series t "id_promocion" s
       else mret ());
  t ← dict_getitem tables "detalle_pedido";
  _ ← setitem_scalar t "descuento" (Int 0);
  mret tables.

(** ** The schema created by create_database_schema *)

Record column_def := mkColumn {
  col_name : string;
  col_type : string;
  col_not_null : bool
}.

Record foreign_key := mkFK {
  fk_column : string;
  fk_table : string;
  fk_ref_column : string
}.

Record table_def := mkTable {
  table_name : string;
  table_columns : list column_def;
  primary_key : string;
  foreign_keys : list foreign_key
}.

(** The CREATE TABLE statements of [schema_sql], in the order of the DDL.
    The primary key is the IDENTITY column; [G2.] prefixes are left out. *)
Definition schema_sql : list table_def := [
  mkTable "tipo_documento"
    [mkColumn "id_tipo_documento" "INT" true;
     mkColumn "nombre" "VARCHAR(100)" true;
     mkColumn "descripcion" "VARCHAR(255)" false]
    "id_tipo_documento" [];
  mkTable "canal_cliente"
    [mkColumn "id_canal_cliente" "INT" true;
     mkColumn "nombre" "VARCHAR(100)" true;
     mkColumn "descripcion" "VARCHAR(255)" false]
    "id_canal_cliente" [];
  mkTable "tipo_pago"
    [mkColumn "id_tipo_pago" "INT" true;
     mkColumn "nombre_tipo_pago" "VARCHAR(100)" true;
     mkColumn "descripcion" "VARCHAR(255)" false]
    "id_tipo_pago" [];
  mkTable "cargo_trabajador"
    [mkColumn "id_cargo_trabajador" "INT" true;
     mkColumn "nombre_cargo" "VARCHAR(100)" true;
     mkColumn "descripcion" "VARCHAR(255)" false]
    "id_cargo_trabajador" [];
  mkTable "marca_producto"
    [mkColumn "id_marca_producto" "INT" true;
     mkColumn "nombre_marca" "VARCHAR(100)" true;
     mkColumn "descripcion" "VARCHAR(255)" false]
    "id_marca_producto" [];
  mkTable "categoria_producto"
    [mkColumn "id_categoria_producto" "INT" true;
     mkColumn "nombre_categoria" "VARCHAR(100)" true;
     mkColumn "descripcion" "VARCHAR(255)" false]
    "id_categoria_producto" [];
  mkTable "formato_producto"
    [mkColumn "id_formato_producto" "INT" true;
     mkColumn "descripcion" "VARCHAR(255)" false;
     mkColumn "volumen" "VARCHAR(50)" false;
     mkColumn "unidad" "VARCHAR(10)" false;
     mkColumn "id_tipo_formato" "INT" false]
    "id_formato_producto" [];
  mkTable "trabajador"
    [mkColumn "id_trabajador" "INT" true;
     mkColumn "nombres" "VARCHAR(100)" true;
     mkColumn "apellidos" "VARCHAR(100)" false;
     mkColumn "email" "VARCHAR(150)" false;
     mkColumn "telefono" "INT" false;
     mkColumn "id_cargo_trabajador" "INT" false]
    "id_trabajador"
    [mkFK "id_cargo_trabajador" "cargo_trabajador" "id_cargo_trabajador"];
  mkTable "cliente"
    [mkColumn "id_cliente" "INT" true;
     mkColumn "nombre_cliente" "VARCHAR(200)" true;
     mkColumn "numero_documento" "VARCHAR(20)" false;
     mkColumn "email" "VARCHAR(150)" false;
     mkColumn "telefono" "INT" false;
     mkColumn "direccion" "VARCHAR(300)" false;
     mkColumn "id_tipo_documento" "INT" false;
     mkColumn "id_canal_cliente" "INT" false]
    "id_cliente"
    [mkFK "id_tipo_documento" "tipo_documento" "id_tipo_documento";
     mkFK "id_canal_cliente" "canal_cliente" "id_canal_cliente"];
  mkTable "producto"
    [mkColumn "id_producto" "INT" true;
     mkColumn "descripcion" "VARCHAR(300)" true;
     mkColumn "precio" "DECIMAL(10,2)" false;
     mkColumn "id_marca_producto" "INT" false;
     mkColumn "id_categoria_producto" "INT" false;
     mkColumn "id_formato_producto" "INT" false]
    "id_producto"
    [mkFK "id_marca_producto" "marca_producto" "id_marca_producto";
     mkFK "id_categoria_producto" "categoria_producto" "id_categoria_producto";
     mkFK "id_formato_producto" "formato_producto" "id_formato_producto"];
  mkTable "tipo_promocion"
    [mkColumn "id_tipo_promocion" "INT" true;
     mkColumn "nombre_tipo" "VARCHAR(100)" true;
     mkColumn "descripcion" "VARCHAR(255)" false]
    "id_tipo_promocion" [];
  mkTable "promocion"
    [mkColumn "id_promocion" "INT" true;
     mkColumn "id_tipo_promocion" "INT" false;
     mkColumn "condicion" "VARCHAR(500)" false;
     mkColumn "beneficio" "VARCHAR(500)" false;
     mkColumn "fecha_inicio" "DATETIME" false;
     mkColumn "fecha_fin" "DATETIME" false;
     mkColumn "activo" "BIT" false]
    "id_promocion"
    [mkFK "id_tipo_promocion" "tipo_promocion" "id_tipo_promocion"];
  mkTable "pedido"
    [mkColumn "id_pedido" "INT" true;
     mkColumn "id_trabajador" "INT" false;
     mkColumn "id_cliente" "INT" true;
     mkColumn "id_tipo_pago" "INT" true;
     mkColumn "fecha" "DATETIME" true;
     mkColumn "monto_total" "DECIMAL(12,2)" false]
    "id_pedido"
    [mkFK "id_trabajador" "trabajador" "id_trabajador";
     mkFK "id_cliente" "cliente" "id_cliente";
     mkFK "id_tipo_pago" "tipo_pago" "id_tipo_pago"];
  mkTable "detalle_pedido"
    [mkColumn "id_detalle_pedido" "INT" true;
     mkColumn "id_pedido" "INT" true;
     mkColumn "id_producto" "INT" true;
     mkColumn "id_promocion" "INT" false;
     mkColumn "cantidad" "INT" true;
     mkColumn "precio_unitario" "DECIMAL(10,2)" true;
     mkColumn "descuento" "DECIMAL(10,2)" false]
    "id_detalle_pedido"
    [mkFK "id_pedido" "pedido" "id_pedido";
     mkFK "id_producto" "producto" "id_producto";
     mkFK "id_promocion" "promocion" "id_promocion"]
].

(** The tables a table references through its FOREIGN KEY clauses. *)
Definition references (t : string) : list string :=
  match list_find (λ td, table_name td = t) schema_sql with
  | Some (_, td) => fk_table <$> foreign_keys td
  | None => []
  end.

(** ** load_data_to_database *)

Definition load_order : list string := [
  "tipo_documento";
  "canal_cliente";
  "tipo_pago";
  "cargo_trabajador";
  "marca_producto";
  "categoria_producto";
  "trabajador";
  "cliente";
  "producto";
  "pedido";
  "detalle_pedido"
].

(** [tables_to_check] of validate_data_integrity. *)
Definition tables_to_check : list string := [
  "G2.cliente"; "G2.trabajador"; "G2.producto";
  "G2.pedido"; "G2.detalle_pedido"
].

(** The text of the count query for a table: SELECT COUNT of all rows FROM
    the table. *)
Definition count_query (table : string) : string :=
  "SELECT COUNT(" +:+ "*" +:+ ") FROM " +:+ table.

(** A value of the [counts] dict: a row count, or the text of an error. *)
Inductive count_value :=
  | Count (n : Z)
  | CountText (s : string).

Section Store.
(** The SQL store behind the engine is external.  [to_sql] appends a frame
    to a table of schema G2 and either succeeds or raises, [connect] opens a
    connection or raises, and [execute_scalar] runs a query on a connection
    and returns its scalar or raises; an exception is given by its text
    ([str(e)]).  Each call may change the store. *)
Context {Engine Conn : Type}.
Variable to_sql : string → DataFrame → Engine → Engine * option string.
Variable connect : Engine → option Conn.
Variable execute_scalar : string → Conn → Conn * (Z + string).

(** State of the loading loop: the [results] dict, the store, and the
    [to_sql] calls made so far (table, frame handed over, store before the
    call), oldest first. *)
Record load_state := mkLoad {
  results : gmap string string;
  engine : Engine;
  calls : list (string * DataFrame * Engine)
}.

(** One iteration of the loop over [load_order].  The loader works on a copy
    of the candidate, so the candidates themselves are not touched. *)
Definition load_table (tables_data : gmap string DataFrame)
    (st : load_state) (table_name : string) : load_state :=
  match tables_data !! table_name with
  | Some d =>
      let df_table := d in
      let id_column := "id_" +:+ table_name in
      let df_table :=
        if decide (id_column ∈ columns df_table)
        then drop_column df_table id_column else df_table in
      match to_sql table_name df_table (engine st) with
      | (engine', None) =>
          {| results := <[table_name :=
               "✓ " +:+ pretty (length (rows df_table)) +:+ " registros cargados"]>
               (results st);
             engine := engine';
             calls := calls st ++ [(table_name, df_table, engine st)] |}
      | (engine', Some e) =>
          {| results := <[table_name := "✗ Error: " +:+ e]> (results st);
             engine := engine';
             calls := calls st ++ [(table_name, df_table, engine st)] |}
      end
  | None => st
  end.

Definition load_data_to_database (tables_data : gmap string DataFrame)
    (eng : Engine) : load_state :=
  foldl (load_table tables_data)
        {| results := ∅; engine := eng; calls := [] |} load_order.

(** ** validate_data_integrity *)

(** State of the counting loop: the [counts] dict, the connection, and the
    queries executed so far (text, connection before the query). *)
Record count_state := mkCount {
  counts : gmap string count_value;
  conn : Conn;
  queries : list (string * Conn)
}.

Definition count_table (st : count_state) (table : string) : count_state :=
  let query := count_query table in
  match execute_scalar query (conn st) with
  | (conn', inl count) =>
      {| counts := <[table := Count count]> (counts st);
         conn := conn';
         queries := queries st ++ [(query, conn st)] |}
  | (conn', inr e) =>
      {| counts := <[table := CountText ("Error: " +:+ e)]> (counts st);
         conn := conn';
         queries := queries st ++ [(query, conn st)] |}
  end.

(** [None] when [engine.connect()] raises: that exception is not caught. *)
Definition validate_data_integrity (eng : Engine) : option count_state :=
  match connect eng with
  | Some c =>
      Some (foldl count_table {| counts := ∅; conn := c; queries := [] |}
                  tables_to_check)
  | None => None
  end.
End Store.

Arguments results {Engine}.
Arguments engine {Engine}.
Arguments calls {Engine}.
Arguments counts {Conn}.
Arguments conn {Conn}.
Arguments queries {Conn}.

(** ** The column mapping of extract_table_data *)

(** For each target table: the source columns selected by [df[[...]]], the
    column given to [dropna(subset=...)], and the [rename] mapper ([None]
    where the script does not rename). *)
Record table_mapping := mkMapping {
  target : string;
  source_columns : list string;
  id_column : string;
  renames : option (list (string * string))
}.

Definition table_mappings : list table_mapping := [
  mkMapping "tipo_documento"
    ["id_tipo_documento"; "nombre"; "descripcion"] "id_tipo_documento"
    (Some [("nombre", "nombre"); ("descripcion", "descripcion")]);
  mkMapping "canal_cliente"
    ["id_canal_cliente"; "nombre.1"; "descripcion.1"] "id_canal_cliente"
    (Some [("nombre.1", "nombre"); ("descripcion.1", "descripcion")]);
  mkMapping "tipo_pago"
    ["id_tipo_pago"; "nombre_tipo_pago"; "descripcion.2"] "id_tipo_pago"
    (Some [("descripcion.2", "descripcion")]);
  mkMapping "cargo_trabajador"
    ["id_cargo_trabajador"; "nombre.2"; "descripcion.4"] "id_cargo_trabajador"
    (Some [("nombre.2", "nombre_cargo"); ("descripcion.4", "descripcion")]);
  mkMapping "marca_producto"
    ["id_marca_producto"; "nombre_marca"] "id_marca_producto" None;
  mkMapping "categoria_producto"
    ["id_categoria_producto"; "nombre_categoria"; "descripcion.5"]
    "id_categoria_producto"
    (Some [("descripcion.5", "descripcion")]);
  mkMapping "trabajador"
    ["id_trabajador"; "nombre trabajador"; "correo"; "telefono.1";
     "id_cargo_trabajador"] "id_trabajador"
    (Some [("nombre trabajador", "nombres"); ("correo", "email");
     ("telefono.1", "telefono")]);
  mkMapping "cliente"
    ["id_cliente"; "nombre_cliente"; "numero_documento"; "correo.1";
     "telefono.2"; "direccion"; "id_tipo_documento"; "id_canal_cliente"]
    "id_cliente"
    (Some [("correo.1", "email"); ("telefono.2", "telefono")]);
  mkMapping "producto"
    ["id_producto"; "descripcion.6"; "precio"; "id_marca_producto";
     "id_categoria_producto"] "id_producto"
    (Some [("descripcion.6", "descripcion")]);
  mkMapping "pedido"
    ["id_pedido"; "id_trabajador"; "id_cliente"; "id_tipo_pago"; "fecha";
     "monto_total"] "id_pedido" None;
  mkMapping "detalle_pedido"
    ["id_detalle_pedido"; "id_pedido"; "id_producto"; "cantidad";
     "precio_unitario"] "id_detalle_pedido" None
].

(** The source columns the script reads unconditionally. *)
Definition required_columns : list string :=
  remove_dups (mjoin (source_columns <$> table_mappings)).

(** The columns the script reads only when the source has them, with the
    table and column they feed. *)
Definition optional_columns : list (string * (string * string)) := [
  ("codigo_formato_producto", ("producto", "id_formato_producto"));
  ("id_promocion", ("detalle_pedido", "id_promocion"))
].

(** ** The reference pipeline of the specification *)

(** A source record: one row of the flat dataset, a mapping from column name
    to raw value, [NaN] where the row has nothing under that name. *)
Definition SourceRecord := string → cell.

Definition source_records (d : DataFrame) : list SourceRecord :=
  (λ r c, cell_at (columns d) r c) <$> values d.

(** Projection of a record onto the declared columns of a table. *)
Definition project (m : table_mapping) (rec : SourceRecord) : list cell :=
  rec <$> source_columns m.

(** The identifying cell of a projected record. *)
Definition key_of (m : table_mapping) (p : list cell) : cell :=
  cell_at (source_columns m) p (id_column m).

(** Deduplication keeping the first occurrence: the element at position [i]
    stays when no earlier position holds an equal one. *)
Definition first_seen {A} `{EqDecision A} (l : list A) : list A :=
  omap (λ i, x ← l !! i; if decide (x ∈ take i l) then None else Some x)
       (seq 0 (length l)).

(** Project, drop the records without key, deduplicate in source order. *)
Definition reference_extract (m : table_mapping) (recs : list SourceRecord)
    : list (list cell) :=
  first_seen (filter (λ p, key_of m p ≠ NaN) (project m <$> recs)).

(** ** Value-level reading of the extraction *)

(** The frame built by [df[[...]].dropna(subset=[id]).drop_duplicates()] and
    the optional [rename]. *)
Definition base_candidate (d : DataFrame) (m : table_mapping) : DataFrame :=
  let F := drop_dups (drop_na (select d (source_columns m)) [id_column m]) in
  match renames m with
  | Some mapper => rename_columns F mapper
  | None => F
  end.

(** [frame[c] = s] when the labels of [s] do not repeat. *)
Definition assign_series (F : DataFrame) (c : string) (s : Series) : DataFrame :=
  let F' := ensure_valid_index F s in
  set_column F' c (series_at s <$> index F').

(** The columns attached to a candidate after the chain. *)
Definition attach (d : DataFrame) (name : string) (F : DataFrame) : DataFrame :=
  if decide (name = "marca_producto") then
    set_column F "descripcion" (column F "nombre_marca").*2
  else if decide (name = "trabajador") then
    frame_setitem_scalar F "apellidos" (Str "")
  else if decide (name = "producto") then
    if decide ("codigo_formato_producto" ∈ columns d)
    then assign_series F "id_formato_producto" (column d "codigo_formato_producto")
    else F
  else if decide (name = "detalle_pedido") then
    frame_setitem_scalar
      (if decide ("id_promocion" ∈ columns d)
       then assign_series F "id_promocion" (column d "id_promocion")
       else F)
      "descuento" (Int 0)
  else F.

Definition candidate (d : DataFrame) (m : table_mapping) : DataFrame :=
  attach d (target m) (base_candidate d m).

(** ** Definitions used to state the properties *)

Global Instance table_mapping_eq_dec : EqDecision table_mapping.
Proof. solve_decision. Defined.

Definition producto_mapping : table_mapping :=
  mkMapping "producto"
    ["id_producto"; "descripcion.6"; "precio"; "id_marca_producto";
     "id_categoria_producto"] "id_producto"
    (Some [("descripcion.6", "descripcion")]).

Definition detalle_mapping : table_mapping :=
  mkMapping "detalle_pedido"
    ["id_detalle_pedido"; "id_pedido"; "id_producto"; "cantidad";
     "precio_unitario"] "id_detalle_pedido" None.

Definition trabajador_mapping : table_mapping :=
  mkMapping "trabajador"
    ["id_trabajador"; "nombre trabajador"; "correo"; "telefono.1";
     "id_cargo_trabajador"] "id_trabajador"
    (Some [("nombre trabajador", "nombres"); ("correo", "email");
           ("telefono.1", "telefono")]).

Definition optional_source (m : table_mapping) : option string :=
  (λ io, io.2.1) <$> list_find (λ o, o.2.1 = target m) optional_columns.

Definition target_columns (m : table_mapping) : list string :=
  match renames m with
  | Some mapper => (λ c, default c (assoc mapper c)) <$> source_columns m
  | None => source_columns m
  end.

(** [G] agrees with [F] on the index and on the first [n] columns. *)
Definition keeps (n : nat) (F G : DataFrame) : Prop :=
  index G = index F
  ∧ take n (columns G) = take n (columns F)
  ∧ take n <$> values G = take n <$> values F.

Definition wide (n : nat) (F : DataFrame) : Prop :=
  (n ≤ length (columns F))%nat ∧ Forall (λ r, (n ≤ length r)%nat) (values F).

(** The assignment of an optional source column does not bring rows back:
    it finds a row in the candidate, or none in the source. *)
Definition no_resurrection (d : DataFrame) (m : table_mapping) : Prop :=
  ∀ c, optional_source m = Some c → c ∈ columns d →
       reference_extract m (source_records d) = [] → rows d = [].

(** Every row has one cell per column. *)
Definition rectangular (F : DataFrame) : Prop :=
  Forall (λ r, length r = length (columns F)) (values F).

(** A column of a frame holds the same value in every row. *)
Definition populated_with (F : DataFrame) (c : string) (v : cell) : Prop :=
  c ∈ columns F ∧ ∀ r, r ∈ values F → cell_at (columns F) r c = v.

(** The candidate of a table after a run on a heap holding only the source. *)
Definition extracted (d : DataFrame) (table : string) : option DataFrame :=
  match extract_table_data 0 [d] with
  | (Ok tables, h') => tables !! table ≫= (h' !!.)
  | _ => None
  end.

(** The claim of C4: when the source lacks the optional column [src], the
    candidate of [table] has the column [c] holding one default value. *)
Definition default_filled (d : DataFrame) : Prop :=
  ∀ src table c, (src, (table, c)) ∈ optional_columns → src ∉ columns d →
    ∃ F v, extracted d table = Some F ∧ populated_with F c v.

(** ** Comparing two runs of the extraction *)

(** Two results agree: both values, related, or both the same exception. *)
Definition outcome_rel {A} (R : A → A → Prop) (ra rb : result A) : Prop :=
  match ra, rb with
  | Ok a, Ok b => R a b
  | Raise e, Raise e' => e = e'
  | _, _ => False
  end.

(** Two runs are compared from two heaps [hA] and [hB] that hold the same
    source frame under [df].  [fresh n a b]: [a] and [b] name the [k]-th
    object allocated since the start, [k < n], in each heap. *)
Definition fresh (hA hB : heap) (n : nat) (a b : loc) : Prop :=
  ∃ k, (k < n)%nat ∧ a = (length hA + k)%nat ∧ b = (length hB + k)%nat.

(** A location the script reads: the source, or a new object. *)
Definition readable (hA hB : heap) (df : loc) (n : nat) (a b : loc) : Prop :=
  (a = df ∧ b = df) ∨ fresh hA hB n a b.

(** Two result dicts with the same keys, bound to the same new objects. *)
Definition rel_tables (hA hB : heap) (n : nat) (tA tB : gmap string loc) : Prop :=
  ∀ key, match tA !! key, tB !! key with
         | Some a, Some b => fresh hA hB n a b
         | None, None => True
         | _, _ => False
         end.

(** Run from the two heaps extended by the same new objects, [mA] and [mB]
    leave the two heaps extended by the same new objects, with results
    related at the new number of objects. *)
Definition sim (hA hB : heap) {A} (n : nat) (R : nat → A → A → Prop)
    (mA mB : M A) : Prop :=
  ∀ ext, (n ≤ length ext)%nat →
    ∃ ext', (length ext ≤ length ext')%nat
      ∧ (mA (hA ++ ext)).2 = hA ++ ext'
      ∧ (mB (hB ++ ext)).2 = hB ++ ext'
      ∧ outcome_rel (R (length ext')) (mA (hA ++ ext)).1 (mB (hB ++ ext)).1.

Definition same {A} : nat → A → A → Prop := λ _, eq.
Definition any {A} : nat → A → A → Prop := λ _ _ _, True.

(** ** Readings of the loader and of the validator *)

(** The frame the loader hands to [to_sql] for a candidate. *)
Definition prepared (table_name : string) (d : DataFrame) : DataFrame :=
  if decide (("id_" +:+ table_name) ∈ columns d)
  then drop_column d ("id_" +:+ table_name) else d.

(** The text stored in [results] for an outcome of [to_sql]. *)
Definition load_result (F : DataFrame) (outcome : option string) : string :=
  match outcome with
  | None => "✓ " +:+ pretty (length (rows F)) +:+ " registros cargados"
  | Some e => "✗ Error: " +:+ e
  end.

(** The value stored in [counts] for an outcome of the count query. *)
Definition count_result (outcome : Z + string) : count_value :=
  match outcome with
  | inl n => Count n
  | inr e => CountText ("Error: " +:+ e)
  end.

(** The connection after running a list of queries, one after the other,
    whatever their outcomes. *)
Definition run_queries {Conn}
    (execute_scalar : string → Conn → Conn * (Z + string))
    (qs : list string) (c : Conn) : Conn :=
  foldl (λ c q, (execute_scalar q c).1) c qs.

(** The tables of a list for which a candidate exists, in order. *)
Definition present (tables_data : gmap string DataFrame) (l : list string)
    : list string :=
  filter (λ t, is_Some (tables_data !! t)) l.

(** The store after replaying a list of calls. *)
Definition replay {Engine}
    (to_sql : string → DataFrame → Engine → Engine * option string)
    (cs : list (string * DataFrame * Engine)) (eng : Engine) : Engine :=
  foldl (λ e c, (to_sql c.1.1 c.1.2 e).1) eng cs.

(** ** Load order against the foreign keys of the schema *)

(** Table [t] comes after table [r] in [order]. *)
Definition placed_after (order : list string) (t r : string) : Prop :=
  ∃ i j, order !! i = Some r ∧ order !! j = Some t ∧ (i < j)%nat.

(** Every table of [order] comes after every table it references. *)
Definition respects_references (order : list string) : Prop :=
  ∀ t r, t ∈ order → r ∈ references t → placed_after order t r.

(** A table of the schema G2 is queried by the validation, under its plain
    or its qualified name. *)
Definition queried (t : string) : Prop :=
  t ∈ tables_to_check ∨ ("G2." +:+ t) ∈ tables_to_check.

(** The claim of C5: every table of the load order is queried. *)
Definition validation_covers_load_order : Prop :=
  ∀ t, t ∈ load_order → queried t.

(** ** Sources and a store used to exercise the code *)

(** One record with a value under every required column. *)
Definition sample_source : DataFrame :=
  {| columns := required_columns;
     rows := [(0%nat, (λ _, Int 1) <$> required_columns)] |}.

(** One record without product identifier, in a sheet that has the optional
    product-format column. *)
Definition keyless_product_source : DataFrame :=
  {| columns := required_columns ++ ["codigo_formato_producto"];
     rows := [(0%nat,
               ((λ c, if decide (c = "id_producto") then NaN else Int 1)
                  <$> required_columns) ++ [Int 7])] |}.

(** The store keeps a row count per table.  It rejects every insert into
    producto, and it has no table G2.producto to count. *)
Definition demo_to_sql (t : string) (F : DataFrame) (eng : gmap string nat)
    : gmap string nat * option string :=
  if decide (t = "producto") then (eng, Some "tipo incompatible")
  else (<[t := (default 0%nat (eng !! t) + length (rows F))%nat]> eng, None).

Definition demo_connect (eng : gmap string nat) : option (gmap string nat) :=
  Some eng.

Definition demo_execute_scalar (q : string) (c : gmap string nat)
    : gmap string nat * (Z + string) :=
  if decide (q = count_query "G2.producto") then (c, inr "Invalid object name")
  else
    match list_find (λ t, q = count_query ("G2." +:+ t)) load_order with
    | Some (_, t) => (c, inl (Z.of_nat (default 0%nat (c !! t))))
    | None => (c, inr "Invalid object name")
    end.

Definition demo_producto : DataFrame :=
  {| columns := ["id_producto"; "descripcion"];
     rows := [(0%nat, [Int 1; Str "agua"])] |}.

Definition demo_pedido : DataFrame :=
  {| columns := ["id_pedido"; "id_cliente"];
     rows := [(0%nat, [Int 1; Int 1])] |}.

Definition demo_cliente : DataFrame :=
  {| columns := ["nombre_cliente"];
     rows := [(0%nat, [Str "Ana"])] |}.

Definition demo_tables : gmap string DataFrame :=
  <["producto" := demo_producto]>
    (<["pedido" := demo_pedido]> (<["cliente" := demo_cliente]> ∅)).

(** * Properties *)

(** ** Running the monad *)

Lemma run_bind {A B} (m : M A) (k : A → M B) h a h1 r :
  m h = (Ok a, h1) → k a h1 = r → (m ≫= k) h = r.
Proof. unfold mbind, M_bind. by intros -> <-. Qed.

Lemma lookup_ext (h ext : heap) k : (h ++ ext) !! (length h + k) = ext !! k.
Proof. rewrite lookup_app_r by lia. f_equal. lia. Qed.

Lemma insert_ext (h ext : heap) k F :
  <[length h + k := F]> (h ++ ext) = h ++ <[k := F]> ext.
Proof. rewrite insert_app_r_alt by lia. do 2 f_equal. lia. Qed.

Lemma alloc_ext (h ext : heap) F :
  alloc F (h ++ ext) = (Ok (length h + length ext), h ++ (ext ++ [F])).
Proof. unfold alloc. by rewrite length_app, app_assoc. Qed.

Section run.
Context (h : heap) (df : loc) (d : DataFrame).
Hypothesis Hdf : h !! df = Some d.

Lemma read_src ext : read df (h ++ ext) = (Ok d, h ++ ext).
Proof. unfold read. by rewrite (lookup_app_l_Some _ _ _ _ Hdf). Qed.

Lemma read_ext ext k F : ext !! k = Some F → read (length h + k) (h ++ ext) = (Ok F, h ++ ext).
Proof. intros HF. unfold read. by rewrite lookup_ext, HF. Qed.

Lemma run_getitem_cols ext cs :
  cs ⊆ columns d →
  getitem_cols cs df (h ++ ext)
  = (Ok (length h + length ext), h ++ (ext ++ [select d cs])).
Proof.
  intros Hcs. unfold getitem_cols.
  eapply run_bind; [apply read_src|].
  eapply run_bind; [unfold lift, frame_getitem; by rewrite decide_True|].
  apply alloc_ext.
Qed.

Lemma run_dropna ext k F subset :
  ext !! k = Some F → subset ⊆ columns F →
  dropna subset (length h + k) (h ++ ext)
  = (Ok (length h + length ext), h ++ (ext ++ [drop_na F subset])).
Proof.
  intros HF Hs. unfold dropna.
  eapply run_bind; [by apply read_ext|].
  eapply run_bind; [unfold lift, frame_dropna; by rewrite decide_True|].
  apply alloc_ext.
Qed.

Lemma run_drop_duplicates ext k F :
  ext !! k = Some F →
  drop_duplicates (length h + k) (h ++ ext)
  = (Ok (length h + length ext), h ++ (ext ++ [drop_dups F])).
Proof.
  intros HF. unfold drop_duplicates.
  eapply run_bind; [by apply read_ext|]. apply alloc_ext.
Qed.

Lemma run_rename ext k F mapper :
  ext !! k = Some F →
  rename mapper (length h + k) (h ++ ext)
  = (Ok (length h + length ext), h ++ (ext ++ [rename_columns F mapper])).
Proof.
  intros HF. unfold rename.
  eapply run_bind; [by apply read_ext|]. apply alloc_ext.
Qed.

Lemma run_getitem_col_src ext c :
  c ∈ columns d → getitem_col df c (h ++ ext) = (Ok (column d c), h ++ ext).
Proof.
  intros Hc. unfold getitem_col.
  eapply run_bind; [apply read_src|].
  unfold lift, frame_column. by rewrite decide_True.
Qed.

Lemma run_getitem_col ext k F c :
  ext !! k = Some F → c ∈ columns F →
  getitem_col (length h + k) c (h ++ ext) = (Ok (column F c), h ++ ext).
Proof.
  intros HF Hc. unfold getitem_col.
  eapply run_bind; [by apply read_ext|].
  unfold lift, frame_column. by rewrite decide_True.
Qed.

Lemma run_has_column ext c :
  has_column c df (h ++ ext) = (Ok (bool_decide (c ∈ columns d)), h ++ ext).
Proof. unfold has_column. eapply run_bind; [apply read_src|done]. Qed.

Lemma run_setitem_series ext k F c s F' :
  ext !! k = Some F → frame_setitem_series F c s = Ok F' →
  setitem_series (length h + k) c s (h ++ ext) = (Ok (), h ++ <[k := F']> ext).
Proof.
  intros HF HF'. unfold setitem_series.
  eapply run_bind; [by apply read_ext|].
  eapply run_bind; [unfold lift; by rewrite HF'|].
  unfold write. by rewrite insert_ext.
Qed.

Lemma run_setitem_scalar ext k F c v :
  ext !! k = Some F →
  setitem_scalar (length h + k) c v (h ++ ext)
  = (Ok (), h ++ <[k := frame_setitem_scalar F c v]> ext).
Proof.
  intros HF. unfold setitem_scalar.
  eapply run_bind; [by apply read_ext|].
  unfold write. by rewrite insert_ext.
Qed.
End run.

Lemma run_dict_getitem (tables : gmap string loc) key l h :
  tables !! key = Some l → dict_getitem tables key h = (Ok l, h).
Proof. unfold dict_getitem. by intros ->. Qed.

(** ** Facts on the frame operations used by the run *)

Lemma source_columns_required m :
  m ∈ table_mappings → source_columns m ⊆ required_columns.
Proof.
  intros Hm c Hc. unfold required_columns.
  apply elem_of_remove_dups, list_elem_of_join.
  exists (source_columns m). split; [done|].
  apply list_elem_of_fmap. by exists m.
Qed.

Lemma column_index F c : (column F c).*1 = index F.
Proof. unfold column, index. by rewrite <-list_fmap_compose. Qed.

Lemma series_at_self (s : Series) :
  NoDup s.*1 → series_at s <$> s.*1 = s.*2.
Proof.
  induction s as [|[l v] s IH]; [done|].
  intros [Hl Hnd]%NoDup_cons. cbn [fmap list_fmap fst snd series_at].
  rewrite decide_True by done. f_equal.
  rewrite <-IH by done. apply Forall_fmap_ext_1, Forall_forall.
  intros l' Hl'. rewrite decide_False; [done|]. by intros ->.
Qed.

Lemma ensure_valid_index_rows F (s : Series) :
  rows (ensure_valid_index F s) = [] → s = [] ∧ rows F = [].
Proof.
  unfold ensure_valid_index.
  destruct (rows F) eqn:HF, s as [|lv s]; cbn; rewrite ?HF; done.
Qed.

Lemma frame_setitem_series_unique F c (s : Series) :
  NoDup s.*1 → frame_setitem_series F c s = Ok (assign_series F c s).
Proof.
  intros Hnd. unfold frame_setitem_series, assign_series, reindex_for_setitem.
  cbv zeta. set (F' := ensure_valid_index F s).
  destruct (decide (s.*1 = index F' ∨ rows F' = [])) as [[Heq|Hnil]|Hne].
  - by rewrite <-Heq, series_at_self.
  - do 2 f_equal. apply ensure_valid_index_rows in Hnil as Hs.
    destruct Hs as [-> _]. unfold index. by rewrite Hnil.
  - by rewrite decide_True.
Qed.

Lemma frame_setitem_series_self F c c' :
  frame_setitem_series F c (column F c')
  = Ok (set_column F c (column F c').*2).
Proof.
  unfold frame_setitem_series, reindex_for_setitem. cbv zeta.
  assert (ensure_valid_index F (column F c') = F) as ->.
  { unfold ensure_valid_index, column. by destruct (rows F). }
  rewrite decide_True; [done|]. left. apply column_index.
Qed.

(** ** The run of extract_table_data on a source with the required columns *)

Lemma run_from_base {A} (m : M A) (h : heap) r : m (h ++ []) = r → m h = r.
Proof. by rewrite app_nil_r. Qed.

Ltac by_computation := apply (bool_decide_unpack _); by vm_compute.

Ltac solve_columns Hreq :=
  first
    [ by_computation
    | transitivity required_columns; [by_computation | exact Hreq] ].

Lemma run_norm {A} (m : M A) (h hh : heap) (a a' : A) (e e' : heap) :
  m hh = (Ok a, h ++ e) → a = a' → e = e' → m hh = (Ok a', h ++ e').
Proof. by intros -> <- <-. Qed.

(** Locations and the list of new objects are kept in evaluated form. *)
Ltac norm :=
  lazymatch goal with
  | |- ?t = ?x =>
      let t' := eval cbn [app length insert list_insert] in t in
      unify x t'; reflexivity
  end.

(** The guarded assignment of an optional source column. *)
Lemma run_optional h df d (tables : gmap string loc) key c c' k F ext :
  h !! df = Some d → NoDup (index d) →
  tables !! key = Some (length h + k) → ext !! k = Some F →
  (if bool_decide (c ∈ columns d)
   then s ← getitem_col df c; t ← dict_getitem tables key; setitem_series t c' s
   else mret ()) (h ++ ext)
  = (Ok (),
     h ++ <[k := if decide (c ∈ columns d)
                 then assign_series F c' (column d c) else F]> ext).
Proof.
  intros Hdf Hnd Hkey HF. case_bool_decide as Hc.
  - rewrite decide_True by done.
    eapply run_bind; [by apply (run_getitem_col_src _ _ _ Hdf)|].
    eapply run_bind; [by apply run_dict_getitem|].
    eapply run_setitem_series; [done|].
    apply frame_setitem_series_unique. by rewrite column_index.
  - rewrite decide_False by done. by rewrite list_insert_id.
Qed.

Ltac run_prim Hdf Hreq Hnd :=
  lazymatch goal with
  | |- getitem_cols _ _ _ = _ =>
      apply (run_getitem_cols _ _ _ Hdf); solve_columns Hreq
  | |- dropna _ _ _ = _ =>
      eapply run_dropna; [reflexivity | solve_columns Hreq]
  | |- drop_duplicates _ _ = _ => eapply run_drop_duplicates; reflexivity
  | |- rename _ _ _ = _ => eapply run_rename; reflexivity
  | |- dict_getitem _ _ _ = _ => apply run_dict_getitem, lookup_insert_eq
  | |- has_column _ _ _ = _ => apply (run_has_column _ _ _ Hdf)
  | |- getitem_col _ _ _ = _ =>
      eapply run_getitem_col; [reflexivity | solve_columns Hreq]
  | |- setitem_series _ _ _ _ = _ =>
      eapply run_setitem_series; [reflexivity | apply frame_setitem_series_self]
  | |- setitem_scalar _ _ _ _ = _ => eapply run_setitem_scalar; reflexivity
  | |- (if bool_decide _ then _ else _) _ = _ =>
      eapply (run_optional _ _ _ _ _ _ _ _ _ _ Hdf Hnd);
        [apply lookup_insert_eq | reflexivity]
  end.

Ltac run_solve Hdf Hreq Hnd :=
  lazymatch goal with
  | |- @mbind _ _ _ _ _ _ _ = _ =>
      eapply run_bind;
        [run_solve Hdf Hreq Hnd | cbv beta zeta; run_solve Hdf Hreq Hnd]
  | |- mret _ _ = _ => reflexivity
  | |- _ => eapply run_norm; [run_prim Hdf Hreq Hnd | norm | norm]
  end.

Lemma extract_run h df d :
  h !! df = Some d → required_columns ⊆ columns d → NoDup (index d) →
  ∃ tables ext,
    extract_table_data df h = (Ok tables, h ++ ext)
    ∧ dom tables = list_to_set load_order
    ∧ ∀ m, m ∈ table_mappings →
        ∃ k, tables !! target m = Some (length h + k)
             ∧ ext !! k = Some (candidate d m).
Proof.
  intros Hdf Hreq Hnd.
  do 2 eexists. split; [|split].
  - apply run_from_base. unfold extract_table_data. cbv zeta.
    run_solve Hdf Hreq Hnd.
  - rewrite !dom_insert_L, dom_empty_L. set_solver.
  - intros m Hm. unfold table_mappings in Hm.
    repeat (apply elem_of_cons in Hm as [->|Hm]);
      [..|by apply elem_of_nil in Hm];
      (eexists; split; reflexivity).
Qed.

(** ** The chain against the reference pipeline *)

Lemma values_select d cs :
  values (select d cs) = (λ rec : SourceRecord, rec <$> cs) <$> source_records d.
Proof.
  unfold values, select, source_records, values. cbn [rows].
  rewrite <-!list_fmap_compose. done.
Qed.

Lemma values_drop_na F id :
  values (drop_na F [id])
  = filter (λ p, cell_at (columns F) p id ≠ NaN) (values F).
Proof.
  unfold values, drop_na. cbn [rows columns].
  induction (rows F) as [|[l r] rs IH]; [done|].
  rewrite filter_cons. cbn [snd fmap list_fmap]. rewrite filter_cons.
  destruct (decide (cell_at (columns F) r id ≠ NaN)) as [Hr|Hr].
  - rewrite decide_True by (by repeat constructor).
    cbn [fmap list_fmap snd]. by f_equal.
  - rewrite decide_False; [done|]. by intros [? _]%Forall_cons.
Qed.

Lemma omap_seq_S {B} (f : nat → option B) n :
  omap f (seq 1 n) = omap (λ i, f (S i)) (seq 0 n).
Proof.
  rewrite <-fmap_S_seq. generalize (seq 0 n). intros l.
  induction l as [|i l IH]; [done|]. csimpl. by rewrite IH.
Qed.

Lemma omap_ext_eq {A B} (f g : A → option B) (l : list A) :
  (∀ x, f x = g x) → omap f l = omap g l.
Proof. intros Hfg. induction l as [|x l IH]; [done|]. csimpl. by rewrite Hfg, IH. Qed.

Lemma duplicated_first_seen seen (vs : list (list cell)) :
  (filter (λ p, p.2 = false) (zip vs (duplicated seen vs))).*1
  = omap (λ i, x ← vs !! i;
               if decide (x ∈ seen ++ take i vs) then None else Some x)
         (seq 0 (length vs)).
Proof.
  revert seen. induction vs as [|r vs IH]; intros seen; [done|].
  cbn [duplicated zip zip_with length seq]. rewrite filter_cons. csimpl.
  rewrite omap_seq_S, app_nil_r. cbn [snd].
  rewrite (omap_ext_eq _ (λ i, x ← vs !! i;
     if decide (x ∈ (r :: seen) ++ take i vs) then None else Some x)).
  2:{ intros i. cbn [lookup list_lookup take]. destruct (vs !! i) as [x|]; [|done].
      csimpl. apply decide_ext.
      rewrite !elem_of_app, !elem_of_cons, ?elem_of_app. naive_solver. }
  rewrite <-IH. case_bool_decide as Hr.
  - rewrite decide_False by done. by rewrite decide_True.
  - rewrite decide_True by done. by rewrite decide_False.
Qed.

Lemma values_filter_zip (rs : list (nat * list cell)) (flags : list bool) :
  ((filter (λ p, p.2 = false) (zip rs flags)).*1).*2
  = (filter (λ p, p.2 = false) (zip rs.*2 flags)).*1.
Proof.
  revert flags. induction rs as [|[l r] rs IH]; intros [|b flags]; try done.
  cbn [zip zip_with fmap list_fmap snd]. rewrite !filter_cons. cbn [snd].
  destruct (decide (b = false)); csimpl; by rewrite IH.
Qed.

Lemma values_drop_dups F : values (drop_dups F) = first_seen (values F).
Proof.
  unfold values at 1, drop_dups. cbn [rows].
  rewrite values_filter_zip. unfold values, first_seen.
  by rewrite duplicated_first_seen.
Qed.

Lemma chain_reference d m :
  values (drop_dups (drop_na (select d (source_columns m)) [id_column m]))
  = reference_extract m (source_records d).
Proof.
  rewrite values_drop_dups, values_drop_na, values_select. done.
Qed.

Lemma keeps_refl n F : keeps n F F.
Proof. done. Qed.

Lemma keeps_trans n F G H : keeps n F G → keeps n G H → keeps n F H.
Proof. intros (?&?&?) (?&?&?). repeat split; congruence. Qed.

Lemma get_loc_None cols c : c ∉ cols → get_loc cols c = None.
Proof.
  induction cols as [|x cols IH]; [done|].
  intros [Hx Hc]%not_elem_of_cons. cbn. rewrite decide_False by done.
  by rewrite IH.
Qed.

Lemma set_column_keeps n F c vals :
  wide n F → c ∉ columns F → length vals = length (rows F) →
  keeps n F (set_column F c vals) ∧ wide n (set_column F c vals).
Proof.
  intros [Hn Hw] Hc Hlen. unfold set_column. rewrite get_loc_None by done.
  unfold keeps, wide, index, values in *. cbn [columns rows].
  revert vals Hlen Hw. induction (rows F) as [|[l r] rs IH]; intros [|v vals] Hlen Hw;
    try done.
  - cbn. rewrite take_app_le, length_app by done. split_and!; [done..|lia|done].
  - cbn in Hlen. cbn [fmap list_fmap snd] in Hw. apply Forall_cons in Hw as [Hr Hw].
    destruct (IH vals) as [(IH1&IH2&IH3) [IH4 IH5]]; [lia|done|].
    cbn [zip_with fmap list_fmap fst snd]. rewrite IH1, IH3, IH2.
    rewrite (take_app_le r) by done. split_and!; try done.
    constructor; [rewrite length_app; lia|done].
Qed.

Lemma assign_series_keeps n F c (s : list (nat * cell)) :
  wide n F → c ∉ columns F → (rows F = [] → s = []) →
  keeps n F (assign_series F c s) ∧ wide n (assign_series F c s).
Proof.
  intros Hw Hc Hs. unfold assign_series. cbv zeta.
  assert (ensure_valid_index F s = F) as ->.
  { unfold ensure_valid_index. destruct (rows F); [by rewrite Hs|done]. }
  apply set_column_keeps; [done..|]. unfold index. by rewrite !length_fmap.
Qed.

Lemma setitem_scalar_keeps n F c v :
  wide n F → c ∉ columns F →
  keeps n F (frame_setitem_scalar F c v) ∧ wide n (frame_setitem_scalar F c v).
Proof.
  intros Hw Hc. apply set_column_keeps; [done..|]. by rewrite length_replicate.
Qed.

Lemma base_columns d m : columns (base_candidate d m) = target_columns m.
Proof. unfold base_candidate, target_columns. by destruct (renames m). Qed.

Lemma base_values d m :
  values (base_candidate d m) = reference_extract m (source_records d).
Proof.
  rewrite <-chain_reference. unfold base_candidate. by destruct (renames m).
Qed.

Lemma elem_of_first_seen {A} `{EqDecision A} (x : A) l : x ∈ first_seen l → x ∈ l.
Proof.
  unfold first_seen. intros (i & _ & Hi)%list_elem_of_omap.
  destruct (l !! i) as [y|] eqn:Hy; [|done]. cbn in Hi.
  case_decide; simplify_eq. by eapply list_elem_of_lookup_2.
Qed.

Lemma reference_width m recs :
  Forall (λ r, length r = length (source_columns m)) (reference_extract m recs).
Proof.
  apply Forall_forall. intros r Hr%elem_of_first_seen.
  apply list_elem_of_filter in Hr as [_ Hr].
  apply list_elem_of_fmap in Hr as (rec & -> & _).
  unfold project. by rewrite length_fmap.
Qed.

Lemma target_columns_length m :
  length (target_columns m) = length (source_columns m).
Proof. unfold target_columns. destruct (renames m); by rewrite ?length_fmap. Qed.

Lemma base_wide d m : wide (length (source_columns m)) (base_candidate d m).
Proof.
  split.
  - by rewrite base_columns, target_columns_length.
  - rewrite base_values. eapply Forall_impl; [apply reference_width|].
    intros r Hr. cbn in Hr. lia.
Qed.

Lemma columns_set_column F c vals :
  c ∉ columns F → columns (set_column F c vals) = columns F ++ [c].
Proof. intros Hc. unfold set_column. by rewrite get_loc_None. Qed.

Lemma columns_ensure_valid_index F (s : list (nat * cell)) :
  columns (ensure_valid_index F s) = columns F.
Proof. unfold ensure_valid_index. by destruct (rows F), s. Qed.

Lemma columns_assign_series F c (s : list (nat * cell)) :
  c ∉ columns F → columns (assign_series F c s) = columns F ++ [c].
Proof.
  intros Hc. unfold assign_series. cbv zeta.
  rewrite columns_set_column; by rewrite columns_ensure_valid_index.
Qed.

Lemma attach_keeps d m :
  m ∈ table_mappings → no_resurrection d m →
  keeps (length (source_columns m)) (base_candidate d m) (candidate d m).
Proof.
  intros Hm Hq.
  pose proof (base_wide d m) as Hw. pose proof (base_columns d m) as Hc.
  assert (∀ c, optional_source m = Some c → c ∈ columns d →
            rows (base_candidate d m) = [] → column d c = []) as Hq'.
  { intros c Hc1 Hc2 Hnil. unfold column. rewrite (Hq c Hc1 Hc2); [done|].
    rewrite <-base_values. unfold values. by rewrite Hnil. }
  unfold candidate. revert Hw Hc Hq'. generalize (base_candidate d m). intros F Hw Hc Hq'.
  unfold table_mappings in Hm.
  repeat (apply elem_of_cons in Hm as [->|Hm]); [..|by apply elem_of_nil in Hm];
    unfold attach; cbn [target]; repeat case_decide; try done.
  - apply set_column_keeps; [done|rewrite Hc; by_computation|].
    unfold column. by rewrite !length_fmap.
  - apply setitem_scalar_keeps; [done|rewrite Hc; by_computation].
  - apply assign_series_keeps; [done|rewrite Hc; by_computation|].
    intros Hnil. by apply Hq'.
  - destruct (assign_series_keeps
                (length (source_columns
                   (mkMapping "detalle_pedido"
                      ["id_detalle_pedido"; "id_pedido"; "id_producto";
                       "cantidad"; "precio_unitario"]
                      "id_detalle_pedido" None)))
                F "id_promocion" (column d "id_promocion"))
      as [Hk1 Hw1]; [done|rewrite Hc; by_computation|by intros; apply Hq'|].
    eapply keeps_trans; [exact Hk1|].
    apply setitem_scalar_keeps; [done|].
    rewrite columns_assign_series by (rewrite Hc; by_computation).
    rewrite Hc. by_computation.
  - apply setitem_scalar_keeps; [done|rewrite Hc; by_computation].
Qed.

(** The candidate of every table, read under its declared columns, is the
    reference pipeline applied to the source records. *)
Lemma candidate_reference d m :
  m ∈ table_mappings → no_resurrection d m →
  take (length (source_columns m)) (columns (candidate d m)) = target_columns m
  ∧ take (length (source_columns m)) <$> values (candidate d m)
    = reference_extract m (source_records d).
Proof.
  intros Hm Hq. destruct (attach_keeps d m Hm Hq) as (_ & Hcols & Hvals).
  rewrite Hcols, Hvals, base_columns, base_values. split.
  - by rewrite <-target_columns_length, firstn_all.
  - rewrite <-(list_fmap_id (reference_extract _ _)) at 2.
    apply Forall_fmap_ext_1. eapply Forall_impl; [apply reference_width|].
    intros r Hr. cbn in Hr. by rewrite <-Hr, firstn_all.
Qed.

(** ** Runs from two heaps holding the same source *)

Section sim.
Context (hA hB : heap) (df : loc) (d : DataFrame).

Local Abbreviation fresh := (fresh hA hB).
Local Abbreviation readable := (readable hA hB df).
Local Abbreviation rel_tables := (rel_tables hA hB).
Local Abbreviation sim := (sim hA hB).

Hypothesis HA : hA !! df = Some d.
Hypothesis HB : hB !! df = Some d.

Lemma fresh_mono n n' a b : (n ≤ n')%nat → fresh n a b → fresh n' a b.
Proof. intros Hle (k & Hk & -> & ->). exists k. split; [lia|done]. Qed.

Lemma rel_tables_mono n n' tA tB :
  (n ≤ n')%nat → rel_tables n tA tB → rel_tables n' tA tB.
Proof.
  intros Hle Ht key. specialize (Ht key).
  destruct (tA !! key), (tB !! key); eauto using fresh_mono.
Qed.

Lemma rel_tables_empty n : rel_tables n ∅ ∅.
Proof. intros key. by rewrite !lookup_empty. Qed.

Lemma rel_tables_insert n key a b tA tB :
  fresh n a b → rel_tables n tA tB →
  rel_tables n (<[key := a]> tA) (<[key := b]> tB).
Proof.
  intros Hab Ht key'. destruct (decide (key = key')) as [->|Hne].
  - by rewrite !lookup_insert_eq.
  - rewrite !lookup_insert_ne by done. apply Ht.
Qed.

Lemma sim_bind {A B} n (RA : nat → A → A → Prop) (RB : nat → B → B → Prop)
    (mA mB : M A) (kA kB : A → M B) :
  sim n RA mA mB →
  (∀ n' a b, (n ≤ n')%nat → RA n' a b → sim n' RB (kA a) (kB b)) →
  sim n RB (mA ≫= kA) (mB ≫= kB).
Proof.
  intros Hm Hk ext Hext.
  destruct (Hm ext Hext) as (ext1 & Hlen & H1 & H2 & Hrel).
  unfold mbind, M_bind.
  destruct (mA (hA ++ ext)) as [[a|e] hA1], (mB (hB ++ ext)) as [[b|e'] hB1];
    cbn in H1, H2, Hrel |- *; subst; try done.
  - destruct (Hk (length ext1) a b) with (ext := ext1)
      as (ext2 & Hlen2 & ? & ? & ?); [lia|done|lia|].
    exists ext2. split_and!; [lia|done..].
  - by exists ext1.
Qed.

Lemma sim_ret {A} n (R : nat → A → A → Prop) a b :
  (∀ n', (n ≤ n')%nat → R n' a b) → sim n R (mret a) (mret b).
Proof. intros HR ext Hext. exists ext. split_and!; [done..|]. by apply HR. Qed.

Lemma sim_lift {A} n (r : result A) : sim n same (lift r) (lift r).
Proof. intros ext Hext. exists ext. split_and!; [done..|]. by destruct r. Qed.

Lemma sim_read n a b : readable n a b → sim n same (read a) (read b).
Proof.
  intros Hab ext Hext. exists ext. unfold read.
  destruct Hab as [[-> ->]|(k & Hk & -> & ->)].
  - rewrite (lookup_app_l_Some _ _ _ _ HA), (lookup_app_l_Some _ _ _ _ HB).
    by split_and!.
  - rewrite !lookup_ext. destruct (lookup_lt_is_Some_2 ext k) as [F ->]; [lia|].
    by split_and!.
Qed.

Lemma sim_alloc n F : sim n fresh (alloc F) (alloc F).
Proof.
  intros ext Hext. exists (ext ++ [F]). rewrite !alloc_ext, length_app. cbn.
  split_and!; [lia|done..|]. exists (length ext). split; [lia|done].
Qed.

Lemma sim_write n a b F : fresh n a b → sim n any (write a F) (write b F).
Proof.
  intros (k & Hk & -> & ->) ext Hext. exists (<[k := F]> ext).
  unfold write. rewrite !insert_ext, length_insert. by split_and!.
Qed.

Lemma sim_getitem_cols n cs a b :
  readable n a b → sim n fresh (getitem_cols cs a) (getitem_cols cs b).
Proof.
  intros Hab. unfold getitem_cols.
  eapply sim_bind; [by apply sim_read|]. intros n1 ? x _ ->.
  eapply sim_bind; [apply sim_lift|]. intros n2 ? F _ ->. apply sim_alloc.
Qed.

Lemma sim_dropna n subset a b :
  readable n a b → sim n fresh (dropna subset a) (dropna subset b).
Proof.
  intros Hab. unfold dropna.
  eapply sim_bind; [by apply sim_read|]. intros n1 ? x _ ->.
  eapply sim_bind; [apply sim_lift|]. intros n2 ? F _ ->. apply sim_alloc.
Qed.

Lemma sim_drop_duplicates n a b :
  readable n a b → sim n fresh (drop_duplicates a) (drop_duplicates b).
Proof.
  intros Hab. unfold drop_duplicates.
  eapply sim_bind; [by apply sim_read|]. intros n1 ? x _ ->. apply sim_alloc.
Qed.

Lemma sim_rename n mapper a b :
  readable n a b → sim n fresh (rename mapper a) (rename mapper b).
Proof.
  intros Hab. unfold rename.
  eapply sim_bind; [by apply sim_read|]. intros n1 ? x _ ->. apply sim_alloc.
Qed.

Lemma sim_getitem_col n a b c :
  readable n a b → sim n same (getitem_col a c) (getitem_col b c).
Proof.
  intros Hab. unfold getitem_col.
  eapply sim_bind; [by apply sim_read|]. intros n1 ? x _ ->. apply sim_lift.
Qed.

Lemma sim_has_column n a b c :
  readable n a b → sim n same (has_column c a) (has_column c b).
Proof.
  intros Hab. unfold has_column.
  eapply sim_bind; [by apply sim_read|]. intros n1 ? x _ ->. by apply sim_ret.
Qed.

Lemma sim_setitem_series n a b c s :
  fresh n a b → sim n any (setitem_series a c s) (setitem_series b c s).
Proof.
  intros Hab. unfold setitem_series.
  eapply sim_bind; [apply sim_read; by right|]. intros n1 ? x Hn1 ->.
  eapply sim_bind; [apply sim_lift|]. intros n2 ? F Hn2 ->.
  apply sim_write. eapply fresh_mono; [|done]. lia.
Qed.

Lemma sim_setitem_scalar n a b c v :
  fresh n a b → sim n any (setitem_scalar a c v) (setitem_scalar b c v).
Proof.
  intros Hab. unfold setitem_scalar.
  eapply sim_bind; [apply sim_read; by right|]. intros n1 ? x Hn1 ->.
  apply sim_write. eapply fresh_mono; [|done]. lia.
Qed.

Lemma sim_dict_getitem n tA tB key :
  rel_tables n tA tB → sim n fresh (dict_getitem tA key) (dict_getitem tB key).
Proof.
  intros Ht. unfold dict_getitem. specialize (Ht key).
  destruct (tA !! key) as [a|], (tB !! key) as [b|]; try done.
  - apply sim_ret. intros n' Hn'. by eapply fresh_mono.
  - intros ext Hext. by exists ext.
Qed.

Lemma sim_weaken {A} n (R R' : nat → A → A → Prop) mA mB :
  (∀ n' a b, R n' a b → R' n' a b) → sim n R mA mB → sim n R' mA mB.
Proof.
  intros HR Hm ext Hext. destruct (Hm ext Hext) as (ext' & ? & ? & ? & Hrel).
  exists ext'. split_and!; [done..|].
  destruct (mA (hA ++ ext)).1, (mB (hB ++ ext)).1; cbn in Hrel |- *; eauto.
Qed.
End sim.

Ltac solve_fresh :=
  lazymatch goal with
  | |- fresh _ _ _ _ _ => eapply fresh_mono; [|eassumption]; lia
  | |- readable _ _ _ _ _ _ =>
      first [ left; by split | right; eapply fresh_mono; [|eassumption]; lia ]
  | |- rel_tables _ _ _ _ _ =>
      repeat (apply rel_tables_insert; [eapply fresh_mono; [|eassumption]; lia|]);
      apply rel_tables_empty
  end.

Ltac sim_solve HA HB :=
  lazymatch goal with
  | |- sim _ _ _ _ (mbind _ _) (mbind _ _) =>
      eapply sim_bind;
        [ sim_solve HA HB
        | let n := fresh "n" in let a := fresh "a" in let b := fresh "b" in
          let Hle := fresh "Hle" in let HR := fresh "HR" in
          intros n a b Hle HR; cbv beta zeta;
          try (unfold same in HR; subst b);
          sim_solve HA HB ]
  | |- sim _ _ _ _ (if ?c then _ else _) (if ?c then _ else _) =>
      destruct c; sim_solve HA HB
  | |- sim _ _ _ _ (mret ()) (mret ()) => by apply sim_ret
  | |- sim _ _ _ _ (mret _) (mret _) =>
      apply sim_ret; intros; solve_fresh
  | |- sim _ _ _ _ (getitem_cols _ _) _ =>
      apply (sim_getitem_cols _ _ _ _ HA HB); solve_fresh
  | |- sim _ _ _ _ (dropna _ _) _ =>
      apply (sim_dropna _ _ _ _ HA HB); solve_fresh
  | |- sim _ _ _ _ (drop_duplicates _) _ =>
      apply (sim_drop_duplicates _ _ _ _ HA HB); solve_fresh
  | |- sim _ _ _ _ (rename _ _) _ =>
      apply (sim_rename _ _ _ _ HA HB); solve_fresh
  | |- sim _ _ _ _ (getitem_col _ _) _ =>
      apply (sim_getitem_col _ _ _ _ HA HB); solve_fresh
  | |- sim _ _ _ _ (has_column _ _) _ =>
      apply (sim_has_column _ _ _ _ HA HB); solve_fresh
  | |- sim _ _ _ _ (setitem_series _ _ _) _ =>
      apply (sim_setitem_series _ _ _ _ HA HB); solve_fresh
  | |- sim _ _ _ _ (setitem_scalar _ _ _) _ =>
      apply (sim_setitem_scalar _ _ _ _ HA HB); solve_fresh
  | |- sim _ _ _ _ (dict_getitem _ _) _ =>
      apply sim_dict_getitem; solve_fresh
  end.

Lemma extract_sim hA hB df d :
  hA !! df = Some d → hB !! df = Some d →
  sim hA hB 0 (rel_tables hA hB) (extract_table_data df) (extract_table_data df).
Proof.
  intros HA HB. unfold extract_table_data. cbv zeta.
  sim_solve HA HB.
Qed.

(** Every run extends the heap and returns locations of new objects. *)
Lemma extract_extends h df d r h' :
  h !! df = Some d → extract_table_data df h = (r, h') →
  ∃ ext, h' = h ++ ext
    ∧ ∀ tables key l, r = Ok tables → tables !! key = Some l →
        ∃ k, (k < length ext)%nat ∧ l = (length h + k)%nat.
Proof.
  intros Hdf Hrun.
  destruct (extract_sim h h df d Hdf Hdf [])
    as (ext & _ & Hh & _ & Hrel); [done|].
  rewrite app_nil_r, Hrun in Hh, Hrel. cbn in Hh, Hrel.
  exists ext. split; [done|]. intros tables key l -> Hl.
  specialize (Hrel key). rewrite Hl in Hrel.
  destruct Hrel as (k & Hk & -> & _). by exists k.
Qed.

(** C9. extract_table_data never mutates the source: whatever the outcome of
    the call (a result or an exception), the source frame and every other
    object that existed before hold what they held, and every candidate
    returned is a new object, distinct from the source. *)
Theorem extract_preserves_source h df d r h' :
  h !! df = Some d → extract_table_data df h = (r, h') →
  h' !! df = Some d
  ∧ (∀ l F, h !! l = Some F → h' !! l = Some F)
  ∧ (∀ tables key l, r = Ok tables → tables !! key = Some l →
       l ≠ df ∧ h !! l = None ∧ is_Some (h' !! l)).
Proof.
  intros Hdf Hrun.
  destruct (extract_extends h df d r h' Hdf Hrun) as (ext & -> & Hnew).
  split_and!.
  - by apply lookup_app_l_Some.
  - intros l F HF. by apply lookup_app_l_Some.
  - intros tables key l Hr Hl.
    destruct (Hnew tables key l Hr Hl) as (k & Hk & ->).
    apply lookup_lt_Some in Hdf as Hlt. split_and!.
    + lia.
    + apply lookup_ge_None. lia.
    + rewrite lookup_ext. by apply lookup_lt_is_Some_2.
Qed.

(** C6. extract_table_data is deterministic: run twice in a row on the same
    source object, it ends the same way both times, with the same exception
    or with two dicts that have the same keys and, under each key, frames
    with the same columns, the same labels and the same rows in the same
    order. *)
Theorem extract_deterministic h df d r1 h1 r2 h2 :
  h !! df = Some d →
  extract_table_data df h = (r1, h1) →
  extract_table_data df h1 = (r2, h2) →
  match r1, r2 with
  | Ok t1, Ok t2 =>
      dom t1 = dom t2
      ∧ ∀ key l1, t1 !! key = Some l1 →
          ∃ l2 F, t2 !! key = Some l2 ∧ h2 !! l1 = Some F ∧ h2 !! l2 = Some F
  | Raise e1, Raise e2 => e1 = e2
  | _, _ => False
  end.
Proof.
  intros Hdf Hrun1 Hrun2.
  assert (h1 !! df = Some d) as Hdf1.
  { destruct (extract_extends h df d r1 h1 Hdf Hrun1) as (ext1 & -> & _).
    by apply lookup_app_l_Some. }
  destruct (extract_sim h h1 df d Hdf Hdf1 [])
    as (ext & _ & HhA & HhB & Hrel); [done|].
  rewrite !app_nil_r, Hrun1, Hrun2 in *. cbn in HhA, HhB, Hrel. subst h1 h2.
  destruct r1 as [t1|e1], r2 as [t2|e2]; cbn in Hrel; try done.
  split.
  - apply set_eq. intros key. rewrite !elem_of_dom. specialize (Hrel key).
    destruct (t1 !! key), (t2 !! key); done.
  - intros key l1 Hl1. specialize (Hrel key). rewrite Hl1 in Hrel.
    destruct (t2 !! key) as [l2|]; [|done].
    destruct Hrel as (k & Hk & -> & ->).
    destruct (lookup_lt_is_Some_2 ext k Hk) as [F HF].
    exists (length (h ++ ext) + k)%nat, F. split_and!; [done| |].
    + apply lookup_app_l_Some. by rewrite lookup_ext.
    + by rewrite lookup_ext.
Qed.

Lemma target_in_load_order m : m ∈ table_mappings → target m ∈ load_order.
Proof.
  intros Hm. unfold table_mappings in Hm.
  repeat (apply elem_of_cons in Hm as [->|Hm]); [..|by apply elem_of_nil in Hm];
    by_computation.
Qed.

Lemma load_order_targets : load_order = target <$> table_mappings.
Proof. reflexivity. Qed.

Lemma candidate_empty d m :
  m ∈ table_mappings → rows d = [] → rows (candidate d m) = [].
Proof.
  intros Hm Hd.
  assert (rows (base_candidate d m) = []) as HF.
  { unfold base_candidate, drop_dups, drop_na, select, values. cbv zeta.
    destruct (renames m); cbn [rows columns]; by rewrite Hd. }
  assert (∀ c, column d c = []) as Hcol.
  { intros c. unfold column. by rewrite Hd. }
  unfold candidate. revert HF. generalize (base_candidate d m). intros F HF.
  assert (∀ c vals, rows (set_column F c vals) = []) as Hset.
  { intros c vals. unfold set_column.
    destruct (get_loc (columns F) c); cbn [rows]; by rewrite HF. }
  assert (∀ c (s : list (nat * cell)), s = [] → assign_series F c s = set_column F c [])
    as Hassign.
  { intros c s ->. unfold assign_series, ensure_valid_index, index. cbv zeta.
    rewrite HF. cbn. by rewrite HF. }
  unfold table_mappings in Hm.
  repeat (apply elem_of_cons in Hm as [->|Hm]); [..|by apply elem_of_nil in Hm];
    unfold attach; cbn [target]; repeat case_decide; try done;
    unfold frame_setitem_scalar; rewrite ?Hassign by done; try apply Hset.
  all: unfold set_column at 1; rewrite Hset;
    destruct (get_loc _ _); cbn [rows]; by rewrite ?Hset.
Qed.

(** C10. On a source that has the required columns, extract_table_data
    returns a dict with exactly the eleven table names as keys, each bound to
    a frame; the frames have no rows when the source has none. *)
Theorem extract_returns_eleven_tables h df d :
  h !! df = Some d → well_formed d → required_columns ⊆ columns d →
  ∃ tables h',
    extract_table_data df h = (Ok tables, h')
    ∧ dom tables =
        {[ "tipo_documento"; "canal_cliente"; "tipo_pago"; "cargo_trabajador";
           "marca_producto"; "categoria_producto"; "trabajador"; "cliente";
           "producto"; "pedido"; "detalle_pedido" ]}
    ∧ size tables = 11%nat
    ∧ ∀ key l, tables !! key = Some l →
        ∃ F, h' !! l = Some F ∧ (rows d = [] → rows F = []).
Proof.
  intros Hdf (_ & Hnd & _) Hreq.
  destruct (extract_run h df d Hdf Hreq Hnd) as (tables & ext & Hrun & Hdom & Hcand).
  exists tables, (h ++ ext). split_and!; [done| | |].
  - rewrite Hdom. set_solver.
  - rewrite <-size_dom, Hdom. by vm_compute.
  - intros key l Hl.
    assert (key ∈ load_order) as Hkey.
    { apply (elem_of_list_to_set (C := gset string)). rewrite <-Hdom.
      apply elem_of_dom. eauto. }
    rewrite load_order_targets in Hkey.
    apply list_elem_of_fmap in Hkey as (m & -> & Hm).
    destruct (Hcand m Hm) as (k & Hk & HF). rewrite Hl in Hk. simplify_eq.
    exists (candidate d m). split; [by rewrite lookup_ext|].
    by apply candidate_empty.
Qed.

(** Where no optional assignment brings dropped rows back, every candidate,
    read under the columns selected from the source, is the reference
    pipeline: project, drop the records without key, deduplicate keeping the
    first occurrence. *)
Theorem extract_matches_reference h df d tables h' m l :
  h !! df = Some d → well_formed d → required_columns ⊆ columns d →
  extract_table_data df h = (Ok tables, h') →
  m ∈ table_mappings → no_resurrection d m →
  tables !! target m = Some l →
  ∃ F, h' !! l = Some F
    ∧ take (length (source_columns m)) (columns F) = target_columns m
    ∧ take (length (source_columns m)) <$> values F
      = reference_extract m (source_records d).
Proof.
  intros Hdf (_ & Hnd & _) Hreq Hrun Hm Hq Hl.
  destruct (extract_run h df d Hdf Hreq Hnd) as (tables' & ext & Hrun' & _ & Hcand).
  rewrite Hrun in Hrun'. simplify_eq.
  destruct (Hcand m Hm) as (k & Hk & HF). rewrite Hl in Hk. simplify_eq.
  exists (candidate d m). split; [by rewrite lookup_ext|].
  by apply candidate_reference.
Qed.

Lemma get_loc_lookup cols c i : get_loc cols c = Some i → cols !! i = Some c.
Proof.
  revert i. induction cols as [|x cols IH]; intros i; [done|]. cbn.
  case_decide as Hx; [by intros [= <-]; subst|].
  destruct (get_loc cols c) as [j|]; [|done]. intros [= <-]. by apply IH.
Qed.

(** ** drop(columns=[c]) *)

Lemma columns_drop_column d c : columns (drop_column d c) = filter (λ x, x ≠ c) (columns d).
Proof. done. Qed.

Lemma index_drop_column d c : index (drop_column d c) = index d.
Proof. unfold index, drop_column. cbn [rows]. by rewrite <-list_fmap_compose. Qed.

Lemma cell_at_nil cols c : cell_at cols [] c = NaN.
Proof. unfold cell_at. destruct (get_loc cols c); by rewrite ?lookup_nil. Qed.

Lemma drop_column_cell cols (r : list cell) c c' :
  c' ≠ c →
  cell_at (filter (λ x, x ≠ c) cols)
          (filter (λ xv : string * cell, xv.1 ≠ c) (zip cols r)).*2 c'
  = cell_at cols r c'.
Proof.
  intros Hc. revert r.
  induction cols as [|x cols IH]; intros r; [done|].
  destruct r as [|v r].
  - cbn [zip zip_with]. rewrite filter_nil. cbn [fmap list_fmap].
    by rewrite !cell_at_nil.
  - cbn [zip zip_with]. rewrite !filter_cons. cbn [fst].
    specialize (IH r). unfold cell_at in *.
    destruct (decide (x ≠ c)) as [Hx|Hx].
    + cbn [fmap list_fmap snd get_loc]. case_decide; [done|].
      destruct (get_loc (filter _ cols) c'), (get_loc cols c'); by cbn in *.
    + apply dec_stable in Hx as ->. cbn [get_loc].
      rewrite decide_False by done. rewrite IH.
      destruct (get_loc cols c'); by cbn.
Qed.

Lemma column_drop_column d c c' :
  c' ≠ c → column (drop_column d c) c' = column d c'.
Proof.
  intros Hc. unfold column, drop_column. cbn [rows columns].
  rewrite <-list_fmap_compose. apply list_fmap_ext. intros i [l r] _. cbn.
  by rewrite drop_column_cell.
Qed.

Lemma filter_all {A} (P : A → Prop) `{∀ x, Decision (P x)} (l : list A) :
  Forall P l → filter P l = l.
Proof.
  induction 1 as [|x l Hx _ IH]; [done|]. by rewrite filter_cons_True, IH.
Qed.

Lemma not_elem_of_prepared_columns t d : ("id_" +:+ t) ∉ columns (prepared t d).
Proof.
  unfold prepared. case_decide; [|done].
  rewrite columns_drop_column, list_elem_of_filter. naive_solver.
Qed.

Section LoaderFacts.
Context {Engine : Type}.
Variable to_sql : string → DataFrame → Engine → Engine * option string.

Lemma load_table_present tables_data st t d :
  tables_data !! t = Some d →
  load_table to_sql tables_data st t
  = {| results := <[t := load_result (prepared t d)
                           (to_sql t (prepared t d) (engine st)).2]> (results st);
       engine := (to_sql t (prepared t d) (engine st)).1;
       calls := calls st ++ [(t, prepared t d, engine st)] |}.
Proof.
  intros Hd. unfold load_table, prepared. rewrite Hd. cbv zeta.
  by destruct (to_sql _ _ _) as [e' [msg|]].
Qed.

Lemma load_table_absent tables_data st t :
  tables_data !! t = None → load_table to_sql tables_data st t = st.
Proof. intros Hd. unfold load_table. by rewrite Hd. Qed.

(** Invariant of the loop over a duplicate-free list of tables. *)
Lemma load_loop tables_data eng l :
  NoDup l →
  let st := foldl (load_table to_sql tables_data)
                  {| results := ∅; engine := eng; calls := [] |} l in
  (calls st).*1.*1 = present tables_data l
  ∧ dom (results st) = list_to_set (present tables_data l)
  ∧ engine st = replay to_sql (calls st) eng
  ∧ ∀ i t F e, calls st !! i = Some (t, F, e) →
      t ∈ l
      ∧ (∃ d, tables_data !! t = Some d ∧ F = prepared t d)
      ∧ e = replay to_sql (take i (calls st)) eng
      ∧ results st !! t = Some (load_result F (to_sql t F e).2).
Proof.
  induction l as [|t l IH] using rev_ind; intros Hnd st.
  { subst st. cbn. split_and!; [done..|]. intros i t F e Hi. done. }
  apply NoDup_app in Hnd as (Hnd & Hfresh & _).
  assert (t ∉ l) as Ht by (intros ?; eapply Hfresh; [done|by left]).
  specialize (IH Hnd). cbv zeta in IH. destruct IH as (IH1 & IH2 & IH3 & IH4).
  subst st. rewrite foldl_app. cbn [foldl].
  set (st0 := foldl (load_table to_sql tables_data) _ l) in IH1, IH2, IH3, IH4 |- *.
  unfold present. rewrite filter_app, filter_cons, filter_nil.
  destruct (tables_data !! t) as [d|] eqn:Hd.
  - rewrite (load_table_present _ _ _ d Hd), decide_True by eauto.
    cbn [results engine calls]. split_and!.
    + rewrite !fmap_app. by rewrite IH1.
    + rewrite dom_insert_L, IH2, list_to_set_app_L. set_solver.
    + unfold replay. rewrite foldl_app. cbn. fold (replay to_sql (calls st0) eng).
      by rewrite <-IH3.
    + intros i t' F e Hi. apply lookup_app_Some in Hi as [Hi|[Hlen Hi]].
      * destruct (IH4 i t' F e Hi) as (Hin & Hd' & He & Hres).
        split_and!; [set_solver|done| |].
        { rewrite take_app_le; [done|]. apply lookup_lt_Some in Hi. lia. }
        rewrite lookup_insert_ne; [done|]. by intros ->.
      * apply list_lookup_singleton_Some in Hi as [Hi [= <- <- <-]].
        assert (i = length (calls st0)) as -> by lia.
        split_and!; [set_solver|eauto| |].
        { by rewrite take_app_length. }
        rewrite lookup_insert_eq. by rewrite IH3.
  - rewrite (load_table_absent _ _ _ Hd), decide_False by (by intros [? ?]).
    rewrite app_nil_r. split_and!; [done..|].
    intros i t' F e Hi. destruct (IH4 i t' F e Hi) as (Hin & ? & ? & ?).
    split_and!; [set_solver|done..].
Qed.

Lemma NoDup_load_order : NoDup load_order.
Proof. by_computation. Qed.

Lemma load_data_to_database_eq tables_data eng :
  load_data_to_database to_sql tables_data eng
  = foldl (load_table to_sql tables_data)
          {| results := ∅; engine := eng; calls := [] |} load_order.
Proof. reflexivity. Qed.

(** C3. The loader contains the failure of a table: [to_sql] is called
    once for every table of the load order that has a candidate, in load
    order, whatever the outcome of the earlier calls; [results] has exactly
    one entry for each of these tables; the entry of a table is the error
    text with the cause when its call raised, and the count of rows handed
    over otherwise. *)
Theorem load_isolates_failures tables_data eng :
  let st := load_data_to_database to_sql tables_data eng in
  (calls st).*1.*1 = present tables_data load_order
  ∧ dom (results st) = list_to_set (present tables_data load_order)
  ∧ engine st = replay to_sql (calls st) eng
  ∧ ∀ i t F e, calls st !! i = Some (t, F, e) →
      e = replay to_sql (take i (calls st)) eng
      ∧ results st !! t =
          Some (match (to_sql t F e).2 with
                | Some cause => "✗ Error: " +:+ cause
                | None =>
                    "✓ " +:+ pretty (length (rows F)) +:+ " registros cargados"
                end).
Proof.
  pose proof (load_loop tables_data eng load_order NoDup_load_order) as H.
  cbv zeta in H. rewrite <-load_data_to_database_eq in H.
  destruct H as (H1 & H2 & H3 & H4).
  split_and!; [exact H1|exact H2|exact H3|]. intros i t F e Hi.
  destruct (H4 i t F e Hi) as (_ & _ & He & Hres). split; [exact He|].
  rewrite Hres. unfold load_result. by destruct (to_sql t F e).2.
Qed.

(** C7. Every frame handed to [to_sql] comes from the candidate of its
    table without the column [id_<table>]: when the candidate has that
    column the frame is the candidate minus that column, with the same row
    labels and the same cells under every other column; when the candidate
    lacks it the frame is the candidate itself. *)
Theorem load_strips_primary_key tables_data eng t F e :
  (t, F, e) ∈ calls (load_data_to_database to_sql tables_data eng) →
  ∃ d, tables_data !! t = Some d
    ∧ (("id_" +:+ t) ∉ columns F)
    ∧ columns F = filter (λ c, c ≠ ("id_" +:+ t)) (columns d)
    ∧ index F = index d
    ∧ (∀ c, c ≠ ("id_" +:+ t) → column F c = column d c)
    ∧ (("id_" +:+ t) ∉ columns d → F = d).
Proof.
  intros (i & Hi)%list_elem_of_lookup_1.
  pose proof (load_loop tables_data eng load_order NoDup_load_order) as H.
  cbv zeta in H. rewrite <-load_data_to_database_eq in H.
  destruct H as (_ & _ & _ & H4).
  destruct (H4 i t F e Hi) as (_ & (d & Hd & ->) & _).
  exists d. split; [done|]. split; [apply not_elem_of_prepared_columns|].
  unfold prepared. case_decide as Hid.
  - split_and!; [done|apply index_drop_column| |done].
    intros c Hc. by apply column_drop_column.
  - split_and!; [|done..].
    symmetry. apply filter_all, Forall_forall. by intros c Hc ->.
Qed.

End LoaderFacts.

Section ValidatorFacts.
Context {Engine Conn : Type}.
Variable connect : Engine → option Conn.
Variable execute_scalar : string → Conn → Conn * (Z + string).

(** Invariant of the counting loop. *)
Lemma count_loop c l :
  NoDup l →
  let st := foldl (count_table execute_scalar) {| counts := ∅; conn := c; queries := [] |} l in
  (queries st).*1 = count_query <$> l
  ∧ dom (counts st) = list_to_set l
  ∧ ∀ i table, l !! i = Some table →
      ∃ cn, queries st !! i = Some (count_query table, cn)
        ∧ counts st !! table
          = Some (count_result
                    (execute_scalar (count_query table) cn).2).
Proof.
  induction l as [|t l IH] using rev_ind; intros Hnd st.
  { subst st. cbn. split_and!; [done..|]. by intros i table Hi. }
  apply NoDup_app in Hnd as (Hnd & Hfresh & _).
  assert (t ∉ l) as Ht by (intros ?; eapply Hfresh; [done|by left]).
  specialize (IH Hnd). cbv zeta in IH. destruct IH as (IH1 & IH2 & IH3).
  subst st. rewrite foldl_app. cbn [foldl].
  set (st0 := foldl (count_table execute_scalar) _ l) in IH1, IH2, IH3 |- *.
  assert (length (queries st0) = length l) as Hlen.
  { by rewrite <-(length_fmap fst), IH1, length_fmap. }
  assert (count_table execute_scalar st0 t
          = {| counts := <[t := count_result
                  (execute_scalar (count_query t) (conn st0)).2]>
                  (counts st0);
               conn := (execute_scalar (count_query t) (conn st0)).1;
               queries := queries st0
                            ++ [(count_query t, conn st0)] |})
    as ->.
  { unfold count_table. cbv zeta.
    by destruct (execute_scalar _ _) as [c' [n|msg]]. }
  cbn [counts conn queries]. split_and!.
  - by rewrite !fmap_app, IH1.
  - rewrite dom_insert_L, IH2, list_to_set_app_L. set_solver.
  - intros i table Hi. apply lookup_app_Some in Hi as [Hi|[Hi1 Hi2]].
    + destruct (IH3 i table Hi) as (cn & Hq & Hc). exists cn. split.
      * by apply lookup_app_l_Some.
      * rewrite lookup_insert_ne; [done|].
        intros ->. by apply list_elem_of_lookup_2 in Hi.
    + apply list_lookup_singleton_Some in Hi2 as [Hi2 <-].
      assert (i = length (queries st0)) as -> by lia.
      exists (conn st0). split.
      * by rewrite lookup_app_r, Nat.sub_diag by lia.
      * by rewrite lookup_insert_eq.
Qed.

(** Each query runs on the connection left by the queries before it. *)
Lemma count_loop_conn c l :
  let st := foldl (count_table execute_scalar)
                  {| counts := ∅; conn := c; queries := [] |} l in
  conn st = run_queries execute_scalar (queries st).*1 c
  ∧ ∀ i q cn, queries st !! i = Some (q, cn) →
      cn = run_queries execute_scalar (take i (queries st).*1) c.
Proof.
  induction l as [|t l IH] using rev_ind; intros st.
  { subst st. cbn. split; [done|]. by intros i q cn Hi. }
  cbv zeta in IH. destruct IH as (IH1 & IH2).
  subst st. rewrite foldl_app. cbn [foldl].
  set (st0 := foldl (count_table execute_scalar) _ l) in IH1, IH2 |- *.
  assert (count_table execute_scalar st0 t
          = {| counts := <[t := count_result
                  (execute_scalar (count_query t) (conn st0)).2]>
                  (counts st0);
               conn := (execute_scalar (count_query t) (conn st0)).1;
               queries := queries st0
                            ++ [(count_query t, conn st0)] |})
    as ->.
  { unfold count_table. cbv zeta.
    by destruct (execute_scalar _ _) as [c' [n|msg]]. }
  cbn [counts conn queries]. rewrite fmap_app. cbn [fmap list_fmap fst].
  split.
  - unfold run_queries. rewrite foldl_app. cbn [foldl].
    fold (run_queries execute_scalar (queries st0).*1 c). by rewrite <-IH1.
  - intros i q cn Hi. apply lookup_app_Some in Hi as [Hi|[Hi1 Hi2]].
    + rewrite take_app_le.
      2:{ apply lookup_lt_Some in Hi. rewrite length_fmap. lia. }
      by apply (IH2 i q).
    + apply list_lookup_singleton_Some in Hi2 as [Hi2 [= <- <-]].
      assert (i = length (queries st0).*1) as ->
        by (rewrite length_fmap; lia).
      by rewrite take_app_length.
Qed.

Lemma NoDup_tables_to_check : NoDup tables_to_check.
Proof. by_computation. Qed.

(** The dict returned by the validation has the tables of [tables_to_check]
    as keys. *)
Lemma validate_dom eng c st :
  connect eng = Some c →
  validate_data_integrity connect execute_scalar eng = Some st →
  dom (counts st) = list_to_set tables_to_check.
Proof.
  intros Hc Hst. unfold validate_data_integrity in Hst.
  rewrite Hc in Hst. injection Hst as <-.
  pose proof (count_loop c tables_to_check NoDup_tables_to_check) as H.
  cbv zeta in H. destruct H as (_ & H & _). exact H.
Qed.

(** C8. Once the connection is open, validation sends one count query per
    named table, SELECT COUNT of all rows FROM G2.cliente, G2.trabajador,
    G2.producto, G2.pedido and G2.detalle_pedido in this order, each on the
    connection left by the queries before it, whatever their outcomes.  The
    dict returned has exactly one entry per named table: the count when the
    query of the table succeeded, the text Error: followed by the cause when
    it raised. *)
Theorem validate_contains_failures eng c :
  connect eng = Some c →
  ∃ st, validate_data_integrity connect execute_scalar eng = Some st
    ∧ (queries st).*1
      = ["SELECT COUNT(" +:+ "*" +:+ ") FROM G2.cliente";
         "SELECT COUNT(" +:+ "*" +:+ ") FROM G2.trabajador";
         "SELECT COUNT(" +:+ "*" +:+ ") FROM G2.producto";
         "SELECT COUNT(" +:+ "*" +:+ ") FROM G2.pedido";
         "SELECT COUNT(" +:+ "*" +:+ ") FROM G2.detalle_pedido"]
    ∧ dom (counts st)
      = {[ "G2.cliente"; "G2.trabajador"; "G2.producto"; "G2.pedido";
           "G2.detalle_pedido" ]}
    ∧ ∀ i table,
        ["G2.cliente"; "G2.trabajador"; "G2.producto"; "G2.pedido";
         "G2.detalle_pedido"] !! i = Some table →
        ∃ cn, queries st !! i
              = Some ("SELECT COUNT(" +:+ "*" +:+ ") FROM " +:+ table, cn)
          ∧ cn = run_queries execute_scalar (take i (queries st).*1) c
          ∧ counts st !! table
            = Some (match (execute_scalar
                             ("SELECT COUNT(" +:+ "*" +:+ ") FROM " +:+ table)
                             cn).2
                    with
                    | inl n => Count n
                    | inr e => CountText ("Error: " +:+ e)
                    end).
Proof.
  intros Hc. unfold validate_data_integrity.
  rewrite Hc. eexists. split; [done|].
  pose proof (count_loop c tables_to_check NoDup_tables_to_check) as Hloop.
  pose proof (count_loop_conn c tables_to_check) as Hconn.
  cbv zeta in Hloop, Hconn.
  destruct Hloop as (Hq & Hdom & Hall). destruct Hconn as (_ & Hcn).
  split_and!.
  - rewrite Hq. vm_compute. reflexivity.
  - rewrite Hdom. unfold tables_to_check. set_solver.
  - intros i table Hi. destruct (Hall i table Hi) as (cn & Hqi & Hci).
    exists cn. split_and!; [exact Hqi| |exact Hci].
    by apply (Hcn i (count_query table)).
Qed.

(** C5, for the entity tables. The validation reports on the five entity
    tables only:
    a table of the load order has an entry in [counts] exactly when it is
    one of cliente, trabajador, producto, pedido, detalle_pedido, and every
    table queried is a table of the load order. *)
Theorem validate_covers_entity_tables eng c st t :
  connect eng = Some c → validate_data_integrity connect execute_scalar eng = Some st →
  t ∈ load_order →
  (is_Some (counts st !! ("G2." +:+ t))
   ↔ t ∈ ["cliente"; "trabajador"; "producto"; "pedido"; "detalle_pedido"])
  ∧ ∀ q, is_Some (counts st !! q) → ∃ t', t' ∈ load_order ∧ q = "G2." +:+ t'.
Proof.
  intros Hc Hst Ht.
  pose proof (validate_dom eng c st Hc Hst) as Hdom. split.
  - rewrite <-elem_of_dom, Hdom, elem_of_list_to_set.
    unfold load_order in Ht.
    repeat (apply elem_of_cons in Ht as [->|Ht]); [..|by apply elem_of_nil in Ht];
      (split; [intros H; by_computation || (exfalso; revert H; by_computation)
              |intros H; by_computation || (exfalso; revert H; by_computation)]).
  - intros q Hq. rewrite <-elem_of_dom, Hdom, elem_of_list_to_set in Hq.
    unfold tables_to_check in Hq.
    repeat (apply elem_of_cons in Hq as [->|Hq]); [..|by apply elem_of_nil in Hq].
    + exists "cliente". split; [by_computation|done].
    + exists "trabajador". split; [by_computation|done].
    + exists "producto". split; [by_computation|done].
    + exists "pedido". split; [by_computation|done].
    + exists "detalle_pedido". split; [by_computation|done].
Qed.
End ValidatorFacts.

Lemma placed_after_get_loc order t r i j :
  get_loc order r = Some i → get_loc order t = Some j → (i < j)%nat →
  placed_after order t r.
Proof. intros Hi Hj Hlt. exists i, j. eauto using get_loc_lookup. Qed.

(** C2 as stated does not hold: producto references formato_producto, which
    the load order does not contain. *)
Lemma load_order_misses_referenced_table : ¬ respects_references load_order.
Proof.
  intros H. destruct (H "producto" "formato_producto") as (i & j & Hi & _).
  - by_computation.
  - by_computation.
  - apply list_elem_of_lookup_2 in Hi. revert Hi. by_computation.
Qed.

(** C2, for the tables that are loaded. The load order is a topological sort
    of the foreign keys among the tables it loads: a table of the load order comes after every
    table it references that is itself loaded.  The load order has no
    repetition, its tables are tables of the schema, and the tables of the
    schema it leaves out are formato_producto, tipo_promocion and promocion. *)
Theorem load_order_respects_loaded_references t r :
  t ∈ load_order → r ∈ references t → r ∈ load_order →
  placed_after load_order t r
  ∧ NoDup load_order
  ∧ load_order ⊆ table_name <$> schema_sql
  ∧ filter (λ x, x ∉ load_order) (table_name <$> schema_sql)
    = ["formato_producto"; "tipo_promocion"; "promocion"].
Proof.
  intros Ht Hr Hin. split_and!; [|by_computation..].
  unfold load_order in Ht.
  repeat (apply elem_of_cons in Ht as [->|Ht]); [..|by apply elem_of_nil in Ht];
    vm_compute in Hr;
    repeat (apply elem_of_cons in Hr as [->|Hr]);
    try (by apply elem_of_nil in Hr);
    try (exfalso; revert Hin; by_computation);
    (eapply placed_after_get_loc; [vm_compute; reflexivity..|lia]).
Qed.

(** C1 at the failing input: the only record has no product identifier, so
    the reference pipeline keeps nothing, yet the producto candidate holds a
    record, without identifier, brought back by the assignment of the
    product-format column. *)
Lemma extract_keeps_keyless_record :
  well_formed keyless_product_source
  ∧ required_columns ⊆ columns keyless_product_source
  ∧ producto_mapping ∈ table_mappings
  ∧ reference_extract producto_mapping (source_records keyless_product_source) = []
  ∧ extracted keyless_product_source "producto"
    = Some {| columns := ["id_producto"; "descripcion"; "precio";
                          "id_marca_producto"; "id_categoria_producto";
                          "id_formato_producto"];
              rows := [(0%nat, [NaN; NaN; NaN; NaN; NaN; Int 7])] |}.
Proof. split_and!; [by_computation..|by vm_compute|by vm_compute]. Qed.

(** C4 as stated does not hold: on a source without promotion identifier the
    detalle_pedido candidate has a record but no id_promocion column. *)
Lemma optional_column_not_filled : ¬ default_filled sample_source.
Proof.
  intros H.
  destruct (H "id_promocion" "detalle_pedido" "id_promocion")
    as (F & v & HF & Hc & _).
  - by_computation.
  - by_computation.
  - vm_compute in HF. injection HF as <-. revert Hc. by_computation.
Qed.

(** C5 as stated does not hold: tipo_documento is loaded and never counted. *)
Lemma validation_skips_reference_tables : ¬ validation_covers_load_order.
Proof.
  intros H. destruct (H "tipo_documento") as [Hq|Hq].
  - by_computation.
  - revert Hq. by_computation.
  - revert Hq. by_computation.
Qed.

Lemma get_loc_app_fresh cols c :
  c ∉ cols → get_loc (cols ++ [c]) c = Some (length cols).
Proof.
  induction cols as [|x cols IH]; intros Hc.
  - cbn. by rewrite decide_True.
  - apply not_elem_of_cons in Hc as [Hx Hc]. cbn.
    rewrite decide_False by done. by rewrite IH.
Qed.

Lemma rectangular_base d m : rectangular (base_candidate d m).
Proof.
  unfold rectangular. rewrite base_columns, base_values, target_columns_length.
  apply reference_width.
Qed.

Lemma values_set_column_fresh F c vals :
  c ∉ columns F →
  values (set_column F c vals) = zip_with (λ r v, r ++ [v]) (values F) vals.
Proof.
  intros Hc. unfold set_column, values. rewrite get_loc_None by done.
  cbn [rows]. revert vals.
  induction (rows F) as [|[l r] rs IH]; intros [|v vals]; try done.
  cbn. by rewrite IH.
Qed.

Lemma rectangular_set_column F c vals :
  rectangular F → c ∉ columns F → rectangular (set_column F c vals).
Proof.
  intros HF Hc. unfold rectangular in *.
  rewrite values_set_column_fresh, columns_set_column by done.
  revert vals. induction HF as [|r rs Hr _ IH]; intros [|v vals]; try by constructor.
  cbn. constructor; [|done]. rewrite !length_app. cbn. lia.
Qed.

Lemma rectangular_ensure_valid_index F (s : list (nat * cell)) :
  rectangular F → rectangular (ensure_valid_index F s).
Proof.
  intros HF. unfold ensure_valid_index.
  destruct (rows F) eqn:Hr; [|done]. destruct s as [|lv s]; [done|].
  unfold rectangular, values. cbn [rows columns].
  apply Forall_fmap, Forall_fmap, Forall_forall. intros x _. cbn.
  by rewrite length_replicate.
Qed.

Lemma rectangular_assign_series F c (s : list (nat * cell)) :
  rectangular F → c ∉ columns F → rectangular (assign_series F c s).
Proof.
  intros HF Hc. unfold assign_series. cbv zeta.
  apply rectangular_set_column; [by apply rectangular_ensure_valid_index|].
  by rewrite columns_ensure_valid_index.
Qed.

(** A column set from a scalar holds the scalar in every row. *)
Lemma setitem_scalar_populated F c v :
  rectangular F → c ∉ columns F →
  populated_with (frame_setitem_scalar F c v) c v.
Proof.
  intros HF Hc. unfold frame_setitem_scalar, populated_with.
  rewrite values_set_column_fresh, columns_set_column by done. split.
  - apply elem_of_app. right. by left.
  - intros r Hr. unfold cell_at. rewrite get_loc_app_fresh by done. cbn.
    apply list_elem_of_lookup_1 in Hr as [i Hi].
    apply lookup_zip_with_Some in Hi as (r0 & v0 & -> & Hr0 & Hv0).
    apply lookup_replicate in Hv0 as [-> _].
    assert (length r0 = length (columns F)) as <-.
    { eapply Forall_forall in HF; [done|]. by eapply list_elem_of_lookup_2. }
    by rewrite list_lookup_middle.
Qed.

(** C4, with the column left out. On a source that lacks an optional
    column, the extraction still returns, and the candidate fed by that
    column has no such column:
    producto has no id_formato_producto, detalle_pedido has no id_promocion.
    The columns filled from constants are there in every row: descuento is 0
    in detalle_pedido and apellidos is the empty string in trabajador. *)
Theorem absent_optional_column_left_out h df d :
  h !! df = Some d → well_formed d → required_columns ⊆ columns d →
  ∃ tables h',
    extract_table_data df h = (Ok tables, h')
    ∧ (∀ src table c,
         (src, (table, c)) ∈ optional_columns → src ∉ columns d →
         ∃ l F, tables !! table = Some l ∧ h' !! l = Some F ∧ c ∉ columns F)
    ∧ (∃ l F, tables !! "detalle_pedido" = Some l ∧ h' !! l = Some F
              ∧ populated_with F "descuento" (Int 0))
    ∧ (∃ l F, tables !! "trabajador" = Some l ∧ h' !! l = Some F
              ∧ populated_with F "apellidos" (Str "")).
Proof.
  intros Hdf (_ & Hnd & _) Hreq.
  destruct (extract_run h df d Hdf Hreq Hnd) as (tables & ext & Hrun & _ & Hcand).
  exists tables, (h ++ ext). split; [done|].
  assert (∀ m, m ∈ table_mappings →
            ∃ l, tables !! target m = Some l ∧ (h ++ ext) !! l = Some (candidate d m))
    as Hc.
  { intros m Hm. destruct (Hcand m Hm) as (k & Hk & HF).
    eexists. split; [done|]. by rewrite lookup_ext. }
  split_and!.
  - intros src table c Hopt Hsrc. unfold optional_columns in Hopt.
    repeat (apply elem_of_cons in Hopt as [[= -> -> ->]|Hopt]);
      [..|by apply elem_of_nil in Hopt].
    + destruct (Hc producto_mapping) as (l & Hl & HF); [by_computation|].
      exists l, (candidate d producto_mapping). split_and!; [done..|].
      unfold candidate, attach. cbn [target producto_mapping].
      repeat case_decide; try done. rewrite base_columns. by_computation.
    + destruct (Hc detalle_mapping) as (l & Hl & HF); [by_computation|].
      exists l, (candidate d detalle_mapping). split_and!; [done..|].
      unfold candidate, attach. cbn [target detalle_mapping].
      repeat case_decide; try done.
      unfold frame_setitem_scalar. rewrite columns_set_column;
        rewrite base_columns; by_computation.
  - destruct (Hc detalle_mapping) as (l & Hl & HF); [by_computation|].
    exists l, (candidate d detalle_mapping). split_and!; [done..|].
    pose proof (rectangular_base d detalle_mapping) as Hrect.
    pose proof (base_columns d detalle_mapping) as Hcols.
    unfold candidate, attach. cbn [target detalle_mapping].
    repeat case_decide; try done.
    + apply setitem_scalar_populated.
      * apply rectangular_assign_series; [done|]. rewrite Hcols. by_computation.
      * rewrite columns_assign_series; rewrite Hcols; by_computation.
    + apply setitem_scalar_populated; [done|]. rewrite Hcols. by_computation.
  - destruct (Hc trabajador_mapping) as (l & Hl & HF); [by_computation|].
    exists l, (candidate d trabajador_mapping). split_and!; [done..|].
    unfold candidate, attach. cbn [target trabajador_mapping].
    repeat case_decide; try done.
    apply setitem_scalar_populated; [apply rectangular_base|].
    rewrite base_columns. by_computation.
Qed.

(** ** The theorems on concrete inputs *)

(** The sample source is a well-formed frame with the required columns. *)
Lemma sample_source_ok :
  [sample_source] !! 0%nat = Some sample_source
  ∧ well_formed sample_source
  ∧ required_columns ⊆ columns sample_source.
Proof. split_and!; [done|by_computation..]. Qed.

(** C2 on the pair detalle_pedido, pedido. *)
Lemma load_order_respects_loaded_references_witness :
  "detalle_pedido" ∈ load_order ∧ "pedido" ∈ references "detalle_pedido"
  ∧ "pedido" ∈ load_order
  ∧ placed_after load_order "detalle_pedido" "pedido".
Proof.
  assert ("detalle_pedido" ∈ load_order) as H1 by by_computation.
  assert ("pedido" ∈ references "detalle_pedido") as H2 by by_computation.
  assert ("pedido" ∈ load_order) as H3 by by_computation.
  split_and!; [exact H1|exact H2|exact H3|].
  apply (load_order_respects_loaded_references "detalle_pedido" "pedido" H1 H2 H3).
Defined.

(** C3 on the demo store: the insert into producto fails, the failure is
    recorded with its cause and pedido is still loaded. *)
Lemma load_isolates_failures_witness :
  (calls (load_data_to_database demo_to_sql demo_tables ∅)).*1.*1
  = ["cliente"; "producto"; "pedido"]
  ∧ results (load_data_to_database demo_to_sql demo_tables ∅) !! "producto"
    = Some "✗ Error: tipo incompatible"
  ∧ results (load_data_to_database demo_to_sql demo_tables ∅) !! "pedido"
    = Some "✓ 1 registros cargados".
Proof.
  pose proof (load_isolates_failures demo_to_sql demo_tables ∅) as H.
  cbv zeta in H. destruct H as (H1 & _ & _ & H4).
  assert (calls (load_data_to_database demo_to_sql demo_tables ∅) !! 1%nat
          = Some ("producto", prepared "producto" demo_producto,
                  (demo_to_sql "cliente" demo_cliente ∅).1)) as Hc1
    by (vm_compute; reflexivity).
  assert (calls (load_data_to_database demo_to_sql demo_tables ∅) !! 2%nat
          = Some ("pedido", prepared "pedido" demo_pedido,
                  (demo_to_sql "cliente" demo_cliente ∅).1)) as Hc2
    by (vm_compute; reflexivity).
  split_and!.
  - rewrite H1. vm_compute. reflexivity.
  - destruct (H4 _ _ _ _ Hc1) as [_ Hr]. rewrite Hr. vm_compute. reflexivity.
  - destruct (H4 _ _ _ _ Hc2) as [_ Hr]. rewrite Hr. vm_compute. reflexivity.
Defined.

(** C7 on the demo store: the frame inserted into producto has lost
    id_producto and kept descripcion. *)
Lemma load_strips_primary_key_witness :
  (("producto", prepared "producto" demo_producto,
    (demo_to_sql "cliente" demo_cliente ∅).1)
   ∈ calls (load_data_to_database demo_to_sql demo_tables ∅))
  ∧ ∃ d, demo_tables !! "producto" = Some d
      ∧ ("id_producto" ∉ columns (prepared "producto" demo_producto))
      ∧ column (prepared "producto" demo_producto) "descripcion"
        = column d "descripcion".
Proof.
  assert (("producto", prepared "producto" demo_producto,
           (demo_to_sql "cliente" demo_cliente ∅).1)
          ∈ calls (load_data_to_database demo_to_sql demo_tables ∅)) as Hin.
  { apply (list_elem_of_lookup_2 _ 1%nat). vm_compute. reflexivity. }
  split; [exact Hin|].
  destruct (load_strips_primary_key demo_to_sql demo_tables ∅ _ _ _ Hin)
    as (d & Hd & Hid & _ & _ & Hcol & _).
  exists d. split_and!; [exact Hd|exact Hid|]. apply Hcol. discriminate.
Defined.

(** C8 on the demo store, which holds three clients and has no table
    G2.producto: the five count queries are sent, the count of G2.cliente is
    recorded, the failure of G2.producto is recorded with its cause, and the
    tables after it are still counted. *)
Lemma validate_contains_failures_witness :
  ∃ st, validate_data_integrity demo_connect demo_execute_scalar
          (<["cliente" := 3%nat]> ∅) = Some st
    ∧ (queries st).*1
      = ["SELECT COUNT(" +:+ "*" +:+ ") FROM G2.cliente";
         "SELECT COUNT(" +:+ "*" +:+ ") FROM G2.trabajador";
         "SELECT COUNT(" +:+ "*" +:+ ") FROM G2.producto";
         "SELECT COUNT(" +:+ "*" +:+ ") FROM G2.pedido";
         "SELECT COUNT(" +:+ "*" +:+ ") FROM G2.detalle_pedido"]
    ∧ counts st !! "G2.cliente" = Some (Count 3)
    ∧ counts st !! "G2.trabajador" = Some (Count 0)
    ∧ counts st !! "G2.producto" = Some (CountText "Error: Invalid object name")
    ∧ counts st !! "G2.pedido" = Some (Count 0)
    ∧ counts st !! "G2.detalle_pedido" = Some (Count 0).
Proof.
  destruct (validate_contains_failures demo_connect demo_execute_scalar
              (<["cliente" := 3%nat]> ∅) (<["cliente" := 3%nat]> ∅) eq_refl)
    as (st & Hst & Hq & _ & Hall).
  exists st. split; [exact Hst|]. split; [exact Hq|].
  rewrite Hq in Hall.
  destruct (Hall 0%nat "G2.cliente" eq_refl) as (c0 & _ & Hc0 & Hr0).
  destruct (Hall 1%nat "G2.trabajador" eq_refl) as (c1 & _ & Hc1 & Hr1).
  destruct (Hall 2%nat "G2.producto" eq_refl) as (c2 & _ & Hc2 & Hr2).
  destruct (Hall 3%nat "G2.pedido" eq_refl) as (c3 & _ & Hc3 & Hr3).
  destruct (Hall 4%nat "G2.detalle_pedido" eq_refl) as (c4 & _ & Hc4 & Hr4).
  rewrite Hc0 in Hr0. rewrite Hc1 in Hr1. rewrite Hc2 in Hr2.
  rewrite Hc3 in Hr3. rewrite Hc4 in Hr4.
  split_and!.
  - rewrite Hr0. vm_compute. reflexivity.
  - rewrite Hr1. vm_compute. reflexivity.
  - rewrite Hr2. vm_compute. reflexivity.
  - rewrite Hr3. vm_compute. reflexivity.
  - rewrite Hr4. vm_compute. reflexivity.
Defined.

(** C5 on the demo store: cliente is counted. *)
Lemma validate_covers_entity_tables_witness :
  ∃ st, validate_data_integrity demo_connect demo_execute_scalar ∅ = Some st
    ∧ "cliente" ∈ load_order
    ∧ is_Some (counts st !! "G2.cliente").
Proof.
  destruct (validate_data_integrity demo_connect demo_execute_scalar ∅)
    as [st|] eqn:Hst; [|discriminate Hst].
  assert ("cliente" ∈ load_order) as Hin by by_computation.
  exists st. split_and!; [reflexivity|exact Hin|].
  apply (validate_covers_entity_tables demo_connect demo_execute_scalar
           ∅ ∅ st "cliente" eq_refl Hst Hin).
  by_computation.
Defined.

(** C9 on the sample source. *)
Lemma extract_preserves_source_witness :
  ∃ r h', extract_table_data 0 [sample_source] = (r, h')
    ∧ h' !! 0%nat = Some sample_source.
Proof.
  destruct (extract_table_data 0 [sample_source]) as [r h'] eqn:Hrun.
  exists r, h'. split; [reflexivity|].
  destruct (extract_preserves_source [sample_source] 0 sample_source r h'
              eq_refl Hrun) as [Hsrc _].
  exact Hsrc.
Defined.

(** C10 on the sample source. *)
Lemma extract_returns_eleven_tables_witness :
  ∃ tables h',
    extract_table_data 0 [sample_source] = (Ok tables, h')
    ∧ size tables = 11%nat.
Proof.
  destruct sample_source_ok as (H0 & Hwf & Hreq).
  destruct (extract_returns_eleven_tables [sample_source] 0 sample_source
              H0 Hwf Hreq) as (tables & h' & Hrun & _ & Hsize & _).
  exists tables, h'. split; [exact Hrun|exact Hsize].
Defined.

(** C6 on the sample source, extracted twice in a row. *)
Lemma extract_deterministic_witness :
  ∃ t1 h1 t2 h2,
    extract_table_data 0 [sample_source] = (Ok t1, h1)
    ∧ extract_table_data 0 h1 = (Ok t2, h2)
    ∧ dom t1 = dom t2.
Proof.
  destruct sample_source_ok as (H0 & (_ & Hnd & _) & Hreq).
  destruct (extract_run [sample_source] 0 sample_source H0 Hreq Hnd)
    as (t1 & ext1 & Hrun1 & _).
  assert (([sample_source] ++ ext1) !! 0%nat = Some sample_source) as H1
    by reflexivity.
  destruct (extract_run _ 0 sample_source H1 Hreq Hnd)
    as (t2 & ext2 & Hrun2 & _).
  exists t1, ([sample_source] ++ ext1), t2, (([sample_source] ++ ext1) ++ ext2).
  split_and!; [exact Hrun1|exact Hrun2|].
  apply (extract_deterministic [sample_source] 0 sample_source
           (Ok t1) _ (Ok t2) _ H0 Hrun1 Hrun2).
Defined.

(** C4 on the sample source, which has no promotion identifier. *)
Lemma absent_optional_column_left_out_witness :
  ∃ tables h',
    extract_table_data 0 [sample_source] = (Ok tables, h')
    ∧ ∃ l F, tables !! "detalle_pedido" = Some l ∧ h' !! l = Some F
             ∧ ("id_promocion" ∉ columns F)
             ∧ populated_with F "descuento" (Int 0).
Proof.
  destruct sample_source_ok as (H0 & Hwf & Hreq).
  destruct (absent_optional_column_left_out [sample_source] 0 sample_source
              H0 Hwf Hreq) as (tables & h' & Hrun & Hopt & Hdesc & _).
  exists tables, h'. split; [exact Hrun|].
  destruct (Hopt "id_promocion" "detalle_pedido" "id_promocion")
    as (l & F & Hl & HF & Hc); [by_computation..|].
  destruct Hdesc as (l' & F' & Hl' & HF' & Hp).
  rewrite Hl in Hl'. injection Hl' as <-. rewrite HF in HF'. injection HF' as <-.
  exists l, F. split_and!; [exact Hl|exact HF|exact Hc|exact Hp].
Defined.
